(** * BoligPortalScraper: a shallow embedding of [main.py]

    The development follows the source file top to bottom: the Python
    built-ins the scraper relies on ([str.replace], [str.strip], [re.search],
    [re.findall], [re.sub], [float], [round], [int]), the three numeric
    parsers, the admission test, the crawl of one area with its pruning
    step, and the [run] loop.

    Modelling conventions.
    - Text is a [string] holding the UTF-8 bytes of the Python [str].  The
      class [\d] is the ten ASCII digits and [strip] removes ASCII blanks,
      which is what Python does on any text whose decimal digits and blanks
      are ASCII.
    - A Python [float] is a [spec_float] at binary64 ([prec = 53],
      [emax = 1024]); [float(s)] is the correctly rounded quotient of the
      decimal's integer numerator by its power of ten.
    - An exception is a value [Raise e]; code that may raise returns a
      [result].
    - [self.listings] is a [gmap string Listing]: the store holds values of
      the shape [_scrape_area] writes, as [_load_listings] reads them back
      from a file that [_save_listings] wrote, except that an entry may
      lack its area.
    - A parsed page is what the scraper reads from it: the cards with
      their attribute and texts, and the text of the timestamp element.
    - Everything the outside sees ([driver.get], [requests.post], the
      [print] of a skipped or failed notification, [json.dump], the cycle
      sleep, [driver.quit]) is appended to a trace.  The progress messages
      of [run] are not traced, and [json.dump] and [driver.quit] do not
      raise. *)

From Stdlib Require Import Ascii String ZArith SpecFloat DecimalString.
From stdpp Require Import gmap strings list fin_maps.

Open Scope string_scope.
Open Scope list_scope.

(** ** Exceptions and results *)

Inductive exn :=
| ValueError
| OverflowError
| WebDriverException
| RequestException
| KeyboardInterrupt.

#[global] Instance exn_eq_dec : EqDecision exn.
Proof. solve_decision. Defined.

Inductive result (A : Type) :=
| Ret (a : A)
| Raise (e : exn).
Arguments Ret {A} a.
Arguments Raise {A} e.

Definition result_bind {A B} (r : result A) (k : A → result B) : result B :=
  match r with
  | Ret a => k a
  | Raise e => Raise e
  end.

(** ** Strings *)

Module Str.

Definition is_digit (c : ascii) : bool :=
  let n := N_of_ascii c in ((48 <=? n) && (n <=? 57))%N.

Definition digit_val (c : ascii) : Z := Z.of_N (N_of_ascii c) - 48.

(** [str.isspace] on the ASCII range. *)
Definition is_space (c : ascii) : bool :=
  let n := N_of_ascii c in
  ((n =? 32) || ((9 <=? n) && (n <=? 13)) || ((28 <=? n) && (n <=? 31)))%N.

Definition is_char (a c : ascii) : bool := Ascii.eqb a c.

Definition nonempty (s : string) : bool :=
  match s with
  | EmptyString => false
  | String _ _ => true
  end.

Fixpoint all (p : ascii → bool) (s : string) : bool :=
  match s with
  | EmptyString => true
  | String c s' => p c && all p s'
  end.

(** Longest prefix of characters satisfying [p], and what follows it. *)
Fixpoint span (p : ascii → bool) (s : string) : string * string :=
  match s with
  | EmptyString => (EmptyString, EmptyString)
  | String c s' =>
      if p c then let '(a, b) := span p s' in (String c a, b)
      else (EmptyString, s)
  end.

(** [s.replace(old, new)] for a one-character [old]. *)
Fixpoint replace1 (old : ascii) (new : string) (s : string) : string :=
  match s with
  | EmptyString => EmptyString
  | String c s' =>
      if Ascii.eqb c old then new +:+ replace1 old new s'
      else String c (replace1 old new s')
  end.

Fixpoint lstrip (s : string) : string :=
  match s with
  | EmptyString => EmptyString
  | String c s' => if is_space c then lstrip s' else s
  end.

Fixpoint rstrip (s : string) : string :=
  match s with
  | EmptyString => EmptyString
  | String c s' =>
      match rstrip s' with
      | EmptyString => if is_space c then EmptyString else String c EmptyString
      | r => String c r
      end
  end.

(** [s.strip()] *)
Definition strip (s : string) : string := rstrip (lstrip s).


(** [s.isdigit()]: non-empty and digits only. *)
Definition isdigit (s : string) : bool := nonempty s && all is_digit s.

(** Value of a digit string read in base ten, most significant first. *)
Fixpoint digits_value_from (acc : Z) (s : string) : Z :=
  match s with
  | EmptyString => acc
  | String c s' => digits_value_from (10 * acc + digit_val c) s'
  end.

Definition digits_value (s : string) : Z := digits_value_from 0 s.

(** The first [n] characters of [s]. *)
Fixpoint take (n : nat) (s : string) : string :=
  match n, s with
  | S n', String c s' => String c (take n' s')
  | _, _ => EmptyString
  end.

End Str.

(** ** The fragment of [re] the scraper uses

    Patterns are built from character classes, concatenation, the greedy
    optional [r?] and the greedy repetition [r+].  Matching is the
    backtracking search of [re]: alternatives are tried in priority order
    against a continuation [k] that receives the unread rest of the text.
    In both patterns of the source the capturing group spans the whole
    pattern, so [group(1)] is the matched text. *)

Module Re.

Inductive regex :=
| Cls (p : ascii → bool)
| Cat (r1 r2 : regex)
| Opt (r : regex)
| Plus (r : regex).

Definition or_else {A} (x : option A) (y : option A) : option A :=
  match x with
  | Some a => Some a
  | None => y
  end.

(** The greedy loop of [r+]: one more round of [step] is preferred to
    leaving the loop; a round that reads nothing ends it. *)
Fixpoint plus_loop {A} (step : string → (string → option A) → option A)
    (k : string → option A) (fuel : nat) (s0 : string) : option A :=
  match fuel with
  | O => None
  | S fuel' =>
      step s0 (λ s1,
        or_else
          (if Nat.ltb (String.length s1) (String.length s0)
           then plus_loop step k fuel' s1 else None)
          (k s1))
  end.

Fixpoint exec {A} (r : regex) (s : string) (k : string → option A) : option A :=
  match r with
  | Cls p =>
      match s with
      | String c s' => if p c then k s' else None
      | EmptyString => None
      end
  | Cat r1 r2 => exec r1 s (λ s1, exec r2 s1 k)
  | Opt r1 => or_else (exec r1 s k) (k s)
  | Plus r1 => plus_loop (exec r1) k (S (String.length s)) s
  end.

(** A match anchored at the start of [s]: the matched text and the rest. *)
Definition match_at (r : regex) (s : string) : option (string * string) :=
  match exec r s Some with
  | Some rest => Some (Str.take (String.length s - String.length rest)%nat s, rest)
  | None => None
  end.

(** [re.search(r, s).group(1)], [None] when nothing matches. *)
Fixpoint search (r : regex) (s : string) : option string :=
  match match_at r s with
  | Some (m, _) => Some m
  | None =>
      match s with
      | EmptyString => None
      | String _ s' => search r s'
      end
  end.

(** One left-to-right scan of [s]: [inr m] for each non-overlapping match
    [m], [inl c] for each character that no match covers.  After an empty
    match the scan moves on by one character. *)
Fixpoint scan_fuel (fuel : nat) (r : regex) (s : string) : list (ascii + string) :=
  match fuel with
  | O => []
  | S fuel' =>
      match match_at r s, s with
      | Some (EmptyString, _), EmptyString => [inr EmptyString]
      | Some (EmptyString, _), String c s' => inr EmptyString :: inl c :: scan_fuel fuel' r s'
      | Some (m, rest), _ => inr m :: scan_fuel fuel' r rest
      | None, EmptyString => []
      | None, String c s' => inl c :: scan_fuel fuel' r s'
      end
  end.

Definition scan (r : regex) (s : string) : list (ascii + string) :=
  scan_fuel (S (String.length s)) r s.

(** [re.findall(r, s)] *)
Definition findall (r : regex) (s : string) : list string :=
  omap (λ x, match x with inr m => Some m | inl _ => None end) (scan r s).

(** [re.sub(r, repl, s)] for a replacement without group references. *)
Definition sub (r : regex) (repl : string) (s : string) : string :=
  foldr (λ x acc, match x with
                  | inl c => String c acc
                  | inr _ => repl +:+ acc
                  end) EmptyString (scan r s).

End Re.

(** ** Numbers *)

Module Py.

Local Open Scope Z_scope.

Definition prec : Z := 53.
Definition emax : Z := 1024.

(** The float nearest to [digits(ip ++ fp) / 10 ^ len(fp)]. *)
Definition float_of_decimal (ip fp : string) : spec_float :=
  match Str.digits_value (ip +:+ fp) with
  | Zpos m =>
      SFdiv prec emax (S754_finite false m 0)
        (S754_finite false (Z.to_pos (10 ^ Z.of_nat (String.length fp))) 0)
  | _ => S754_zero false
  end.

(** [float(s)] for the literals [digits], [digits.digits], [digits.] and
    [.digits].  Python also reads signs, exponents, underscores, [inf],
    [nan] and surrounding blanks; the scraper never passes any of these,
    and here they raise like any other malformed text. *)
Definition float (s : string) : result spec_float :=
  let '(ip, rest) := Str.span Str.is_digit s in
  match rest with
  | EmptyString =>
      if Str.nonempty ip then Ret (float_of_decimal ip EmptyString)
      else Raise ValueError
  | String c fp =>
      if Str.is_char "." c && Str.all Str.is_digit fp && Str.nonempty (ip +:+ fp)
      then Ret (float_of_decimal ip fp)
      else Raise ValueError
  end.

(** Nearest integer to [m * 2 ^ e], ties to the even one. *)
Definition round_half_even (m e : Z) : Z :=
  if 0 <=? e then m * 2 ^ e
  else
    let d := 2 ^ (- e) in
    let q := m / d in
    match (2 * (m mod d)) ?= d with
    | Lt => q
    | Gt => q + 1
    | Eq => if Z.even q then q else q + 1
    end.

(** [round(x)] on a float. *)
Definition round (x : spec_float) : result Z :=
  match x with
  | S754_zero _ => Ret 0
  | S754_finite s m e => Ret (cond_Zopp s (round_half_even (Zpos m) e))
  | S754_infinity _ => Raise OverflowError
  | S754_nan => Raise ValueError
  end.

(** [int(s)] on text: decimal digits only in this model. *)
Definition int (s : string) : result Z :=
  if Str.isdigit s then Ret (Str.digits_value s) else Raise ValueError.

(** [x >= y] on floats: false as soon as one side is NaN. *)
Definition float_ge (x y : spec_float) : bool := SFleb y x.

Definition float_of_Z (n : Z) : spec_float := binary_normalize prec emax n 0 false.

End Py.

(** ** The numeric parsers *)

Definition digit : Re.regex := Re.Cls Str.is_digit.

(** [r"(\d+(?:,\d+)?)"] *)
Definition rooms_pattern : Re.regex :=
  Re.Cat (Re.Plus digit) (Re.Opt (Re.Cat (Re.Cls (Str.is_char ",")) (Re.Plus digit))).

Definition dot_or_comma (c : ascii) : bool := Str.is_char "." c || Str.is_char "," c.

(** [r"(\d+(?:[.,]\d+)?)"] *)
Definition sqm_pattern : Re.regex :=
  Re.Cat (Re.Plus digit) (Re.Opt (Re.Cat (Re.Cls dot_or_comma) (Re.Plus digit))).

(** [r"\D"] *)
Definition non_digit : Re.regex := Re.Cls (λ c, negb (Str.is_digit c)).

Definition _parse_rooms (text : string) : result spec_float :=
  match Re.search rooms_pattern (Str.replace1 " " EmptyString text) with
  | None => Ret (S754_zero false)
  | Some g => Py.float (Str.replace1 "," "." g)
  end.

Definition _parse_sqm (text : string) : result Z :=
  let matches := Re.findall sqm_pattern (Str.replace1 " " EmptyString text) in
  match last matches with
  | None => Ret 0%Z
  | Some g =>
      let sqm_str := Str.replace1 "," "." g in
      result_bind (Py.float sqm_str) Py.round
  end.

Definition _parse_price (text : string) : result Z :=
  let digits := Re.sub non_digit EmptyString text in
  if Str.isdigit digits then Py.int digits else Ret 0%Z.


(** ** Numeric tokens, as the specification words them

    A token is a maximal run of digits, optionally followed by one
    separator character and a further maximal run of digits. *)

Module Token.

Definition token : Type := string * option (ascii * string).

Definition text (t : token) : string :=
  match t with
  | (ip, None) => ip
  | (ip, Some (c, fp)) => ip +:+ String c fp
  end.


(** The token that starts at the head of [s], and the text after it. *)
Definition at_head (sep : ascii → bool) (s : string) : option (token * string) :=
  match Str.span Str.is_digit s with
  | (EmptyString, _) => None
  | (ip, rest) =>
      match rest with
      | String c rest' =>
          if sep c then
            match Str.span Str.is_digit rest' with
            | (EmptyString, _) => Some ((ip, None), rest)
            | (fp, rest'') => Some ((ip, Some (c, fp)), rest'')
            end
          else Some ((ip, None), rest)
      | EmptyString => Some ((ip, None), rest)
      end
  end.

(** The first token of [s], reading left to right. *)
Fixpoint first (sep : ascii → bool) (s : string) : option token :=
  match at_head sep s with
  | Some (t, _) => Some t
  | None =>
      match s with
      | EmptyString => None
      | String _ s' => first sep s'
      end
  end.

Fixpoint all_fuel (fuel : nat) (sep : ascii → bool) (s : string) : list token :=
  match fuel with
  | O => []
  | S fuel' =>
      match at_head sep s, s with
      | Some (t, rest), _ => t :: all_fuel fuel' sep rest
      | None, String _ s' => all_fuel fuel' sep s'
      | None, EmptyString => []
      end
  end.

(** All the tokens of [s], left to right, none overlapping another. *)
Definition all (sep : ascii → bool) (s : string) : list token :=
  all_fuel (S (String.length s)) sep s.



End Token.

(** ** Notions used to state the facts about the parsers *)

(** The run is maximal: what follows it does not start with a [p]. *)
Definition stops (p : ascii → bool) (b : string) : Prop :=
  match b with
  | String c _ => p c = false
  | EmptyString => True
  end.




(** ** Data of the scraper *)

(** One value of [self.listings], with the eight keys [_scrape_area] writes.
    The key ["area"] is the only one the scraper reads back, and it reads it
    with [.get]: [area] is [None] for an entry that lacks it. *)
Record Listing := {
  area : option string;
  title : string;
  location : string;
  description : string;
  price : string;
  rooms : spec_float;
  sqm : Z;
  timestamp : string;
}.

(** What the scraper reads from one [a.AdCardSrp__Link] element: its [href]
    attribute and the text of the three elements selected inside it, [None]
    where the attribute or the element is missing. *)
Record Card := {
  href : option string;
  title_el : option string;
  location_el : option string;
  price_el : option string;
}.

(** What the scraper reads from a parsed page: the cards [find_all] returns
    and the text of the element [select_one(".css-v49nss")] returns. *)
Record Soup := {
  cards : list Card;
  time_el : option string;
}.

(** The values interpolated into the notification text. *)
Record Message := {
  msg_area : string;
  msg_rooms : spec_float;
  msg_sqm : Z;
  msg_price : string;
  msg_url : string;
}.

Inductive Event :=
| DriverStart
| DriverGet (url : string)
| TelegramPost (chat : string) (m : Message)
| PrintSkipped
| PrintFailed (status : Z)
| SaveListings (snapshot : gmap string Listing)
| Sleep (seconds : nat)
| DriverQuit.

(** The fields [__init__] reads from the process environment.  [areas] is
    the JSON object of [BOLIG_PORTAL_AREAS_JSON] in the order of its keys. *)
Record Config := {
  bot_token : string;
  chat_id : string;
  areas : list (string * string);
  max_price : Z;
  min_rooms : spec_float;
  min_sqm : Z;
}.

(** What the outside answers: [driver.get] followed by the parse of
    [page_source], and [requests.post] with its status code.  Either may
    raise instead. *)
Record World := {
  fetch : string → result Soup;
  post : Message → result Z;
}.

(** [found_urls] is the local list of [_scrape_area]; it lives in the state
    so that the two loops can be written as state transformers, and is reset
    at each call. *)
Record State := {
  listings : gmap string Listing;
  found_urls : list string;
  trace : list Event;
}.

Definition NUM_PAGES : nat := 3.
Definition CYCLE_DELAY : nat := 60.

(** ** State and exceptions *)

Definition M (A : Type) : Type := State → result A * State.

Definition ret {A} (a : A) : M A := λ st, (Ret a, st).

Definition bind {A B} (m : M A) (k : A → M B) : M B :=
  λ st, match m st with
        | (Ret a, st') => k a st'
        | (Raise e, st') => (Raise e, st')
        end.

Notation "x <- m ;; k" := (bind m (λ x, k))
  (at level 100, m at next level, right associativity).
Notation "m ;;; k" := (bind m (λ _, k))
  (at level 100, right associativity).

Definition lift {A} (r : result A) : M A := λ st, (r, st).

Definition emit (e : Event) : M unit :=
  λ st, (Ret tt, {| listings := listings st; found_urls := found_urls st;
                    trace := trace st ++ [e] |}).

Definition get_listings : M (gmap string Listing) := λ st, (Ret (listings st), st).

Definition get_found : M (list string) := λ st, (Ret (found_urls st), st).

Definition set_listings (ls : gmap string Listing) : M unit :=
  λ st, (Ret tt, {| listings := ls; found_urls := found_urls st; trace := trace st |}).

Definition set_found (l : list string) : M unit :=
  λ st, (Ret tt, {| listings := listings st; found_urls := l; trace := trace st |}).

Fixpoint for_each {A} (body : A → M unit) (l : list A) : M unit :=
  match l with
  | [] => ret tt
  | x :: l' => body x ;;; for_each body l'
  end.

(** ** The methods of [BoligPortalScraper] *)

Section Scraper.

Variable cfg : Config.
Variable w : World.

Definition _send_telegram_notification (m : Message) : M unit :=
  if negb (Str.nonempty (bot_token cfg)) || negb (Str.nonempty (chat_id cfg))
  then emit PrintSkipped
  else
    emit (TelegramPost (chat_id cfg) m) ;;;
    status <- lift (post w m) ;;
    if decide (status = 200%Z) then ret tt else emit (PrintFailed status).

Definition _scrape_page (url : string) : M Soup :=
  emit (DriverGet url) ;;;
  lift (fetch w url).

Definition _meets_criteria (rooms_val : spec_float) (sqm_val price_val : Z) : bool :=
  Py.float_ge rooms_val (min_rooms cfg)
  && (min_sqm cfg <=? sqm_val)%Z
  && (price_val <=? max_price cfg)%Z.

Definition text_or_empty (el : option string) : string :=
  match el with
  | Some t => Str.strip t
  | None => EmptyString
  end.

(** The body of [for card in cards]; [continue] is [ret tt]. *)
Definition card_body (area_name : string) (card : Card) : M unit :=
  let apt_href := default EmptyString (href card) in
  if negb (Str.nonempty apt_href) then ret tt else
  let apt_url := "https://www.boligportal.dk" +:+ apt_href in
  found <- get_found ;;
  set_found (found ++ [apt_url]) ;;;
  ls <- get_listings ;;
  if decide (is_Some (ls !! apt_url)) then ret tt else
  let location_txt := text_or_empty (location_el card) in
  let title_txt := text_or_empty (title_el card) in
  let desc_txt := title_txt in
  let price_txt := text_or_empty (price_el card) in
  rooms_val <- lift (_parse_rooms desc_txt) ;;
  sqm_val <- lift (_parse_sqm desc_txt) ;;
  price_val <- lift (_parse_price price_txt) ;;
  if negb (_meets_criteria rooms_val sqm_val price_val) then ret tt else
  detail_soup <- _scrape_page apt_url ;;
  let timestamp_str := text_or_empty (time_el detail_soup) in
  ls' <- get_listings ;;
  set_listings (<[apt_url := {| area := Some area_name; title := title_txt;
                                location := location_txt; description := desc_txt;
                                price := price_txt; rooms := rooms_val;
                                sqm := sqm_val; timestamp := timestamp_str |}]> ls') ;;;
  _send_telegram_notification
    {| msg_area := area_name; msg_rooms := rooms_val; msg_sqm := sqm_val;
       msg_price := price_txt; msg_url := apt_url |}.

Definition string_of_nat (n : nat) : string := NilZero.string_of_uint (Nat.to_uint n).

Definition page_url (base_url : string) (page_idx : nat) : string :=
  if decide (0 < page_idx)
  then base_url +:+ "?offset=" +:+ string_of_nat (18 * page_idx)
  else base_url.

Definition is_nil {A} (l : list A) : bool :=
  match l with
  | [] => true
  | _ :: _ => false
  end.

(** [for page_idx in range(NUM_PAGES)], over the indices still to visit;
    [break] is [ret tt]. *)
Fixpoint page_loop (area_name base_url : string) (idxs : list nat) : M unit :=
  match idxs with
  | [] => ret tt
  | page_idx :: idxs' =>
      soup <- _scrape_page (page_url base_url page_idx) ;;
      if Nat.eqb page_idx 0 && is_nil (cards soup) then ret tt
      else
        for_each (card_body area_name) (cards soup) ;;;
        page_loop area_name base_url idxs'
  end.

(** One round of [for known_url in list(self.listings.keys())].  Every key
    of the snapshot is still bound when its turn comes, since a round
    deletes no key but its own. *)
Definition prune_step (area_name : string) (found : list string)
    (ls : gmap string Listing) (known_url : string) : gmap string Listing :=
  match ls !! known_url with
  | Some l =>
      if bool_decide (area l = Some area_name) && negb (bool_decide (known_url ∈ found))
      then delete known_url ls
      else ls
  | None => ls
  end.

Definition prune (area_name : string) (found : list string)
    (ls : gmap string Listing) : gmap string Listing :=
  foldl (prune_step area_name found) ls (map_to_list ls).*1.

Definition _scrape_area (area_name base_url : string) : M unit :=
  set_found [] ;;;
  page_loop area_name base_url (seq 0 NUM_PAGES) ;;;
  found <- get_found ;;
  ls <- get_listings ;;
  set_listings (prune area_name found ls).

Definition _save_listings : M unit :=
  ls <- get_listings ;;
  emit (SaveListings ls).

End Scraper.

(** ** The cycle loop

    The outside is indexed by the number of the cycle: the feed a cycle
    sees, the answers of the notification service during it, and whether
    the sleep that ends it is cut short by Ctrl-C.  A Ctrl-C during a fetch
    or a post is a [Raise KeyboardInterrupt] answer of that call. *)

Record Outside := {
  world_at : nat → World;
  interrupted_sleep : nat → bool;
}.

Section Run.

Variable cfg : Config.
Variable out : Outside.

Definition crawl_areas (n : nat) : M unit :=
  for_each (λ a, _scrape_area cfg (world_at out n) (fst a) (snd a)) (areas cfg).

Definition sleep_cycle (n : nat) : M unit :=
  emit (Sleep CYCLE_DELAY) ;;;
  if interrupted_sleep out n then lift (Raise KeyboardInterrupt) else ret tt.

(** The body of [while True], run for cycle number [n]. *)
Definition cycle (n : nat) : M unit :=
  crawl_areas n ;;;
  _save_listings ;;;
  sleep_cycle n.

(** [while True]: [None] when [fuel] cycles did not end the loop. *)
Fixpoint cycles (fuel n : nat) (st : State) : option (exn * State) :=
  match fuel with
  | O => None
  | S fuel' =>
      match cycle n st with
      | (Ret _, st') => cycles fuel' (S n) st'
      | (Raise e, st') => Some (e, st')
      end
  end.

(** [finally: self.driver.quit(); self._save_listings()] *)
Definition finally_block : M unit :=
  emit DriverQuit ;;;
  _save_listings.

(** [run]: the early return when no area is configured, then the loop
    under [try], [except KeyboardInterrupt] and [finally]. *)
Definition run (fuel : nat) (st : State) : option (result unit * State) :=
  if is_nil (areas cfg) then Some (Ret tt, st)
  else
    match cycles fuel 0 st with
    | None => None
    | Some (e, st1) =>
        let st2 := snd (finally_block st1) in
        if decide (e = KeyboardInterrupt) then Some (Ret tt, st2)
        else Some (Raise e, st2)
    end.

(** [__init__] up to [run]: the stored listings are loaded and the driver
    is started. *)
Definition init (stored : gmap string Listing) : State :=
  {| listings := stored; found_urls := []; trace := [DriverStart] |}.

(** [main] *)
Definition main (stored : gmap string Listing) (fuel : nat) : option (result unit * State) :=
  run fuel (init stored).

End Run.




(** ** Notions used to state the facts about the crawl *)

Section CrawlDefs.

Variable cfg : Config.
Variable w : World.

(** What a card not yet in the store leads to, as a function of the card
    and of the answers of the outside alone. *)
Inductive verdict :=
| Reject
| ParseFail (e : exn)
| DetailFail (e : exn)
| Accept (l : Listing) (m : Message).

Definition verdict_of (area_name : string) (card : Card) (apt_url : string) : verdict :=
  let title_txt := text_or_empty (title_el card) in
  let price_txt := text_or_empty (price_el card) in
  match _parse_rooms title_txt with
  | Raise e => ParseFail e
  | Ret rooms_val =>
      match _parse_sqm title_txt with
      | Raise e => ParseFail e
      | Ret sqm_val =>
          match _parse_price price_txt with
          | Raise e => ParseFail e
          | Ret price_val =>
              if negb (_meets_criteria cfg rooms_val sqm_val price_val) then Reject
              else
                match fetch w apt_url with
                | Raise e => DetailFail e
                | Ret detail_soup =>
                    Accept
                      {| area := Some area_name; title := title_txt;
                         location := text_or_empty (location_el card);
                         description := title_txt; price := price_txt;
                         rooms := rooms_val; sqm := sqm_val;
                         timestamp := text_or_empty (time_el detail_soup) |}
                      {| msg_area := area_name; msg_rooms := rooms_val;
                         msg_sqm := sqm_val; msg_price := price_txt;
                         msg_url := apt_url |}
                end
          end
      end
  end.

Definition site : string := "https://www.boligportal.dk".

(** The identity a card contributes to [found_urls], if any. *)
Definition card_url (card : Card) : option string :=
  match href card with
  | Some (String c h) => Some (site +:+ String c h)
  | _ => None
  end.

Definition push_found (u : string) (st : State) : State :=
  {| listings := listings st; found_urls := found_urls st ++ [u]; trace := trace st |}.

Definition log (evs : list Event) (st : State) : State :=
  {| listings := listings st; found_urls := found_urls st; trace := trace st ++ evs |}.

Definition store (u : string) (l : Listing) (st : State) : State :=
  {| listings := <[u := l]> (listings st); found_urls := found_urls st; trace := trace st |}.

Definition credentials_missing : bool :=
  negb (Str.nonempty (bot_token cfg)) || negb (Str.nonempty (chat_id cfg)).

(** What one call of [_send_telegram_notification] adds to the trace. *)
Definition notify_events (m : Message) : list Event :=
  if credentials_missing then [PrintSkipped]
  else
    TelegramPost (chat_id cfg) m ::
    match post w m with
    | Ret status => if decide (status = 200%Z) then [] else [PrintFailed status]
    | Raise _ => []
    end.

Definition notify_result (m : Message) : result unit :=
  if credentials_missing then Ret tt
  else match post w m with
       | Ret _ => Ret tt
       | Raise e => Raise e
       end.

(** [st'] is [st] after some rounds of the crawl of [area_name]: nothing
    stored was touched, and whatever is new was stored under this area
    with its identity among the [new] found ones. *)
Definition grows (area_name : string) (new : list string) (st st' : State) : Prop :=
  listings st ⊆ listings st' ∧
  found_urls st' = found_urls st ++ new ∧
  ∀ k l, listings st' !! k = Some l →
         listings st !! k = Some l ∨ (area l = Some area_name ∧ k ∈ new).




End CrawlDefs.

(** The test of the pruning loop on one entry of the store. *)
Definition stale (area_name : string) (found : list string) (k : string) (l : Listing) : bool :=
  bool_decide (area l = Some area_name) && negb (bool_decide (k ∈ found)).

(** The first page of the area loads and shows no card: the condition
    under which [_scrape_area] leaves its page loop at once. *)
Definition empty_first_page (w : World) (base_url : string) : Prop :=
  ∃ soup, fetch w base_url = Ret soup ∧ cards soup = [].

Definition is_quit (e : Event) : bool :=
  match e with
  | DriverQuit => true
  | _ => false
  end.

(** How many times the trace releases the driver. *)
Fixpoint quits (tr : list Event) : nat :=
  match tr with
  | [] => 0
  | e :: tr' => (if is_quit e then 1 else 0) + quits tr'
  end.


(** ** A worked scenario: one area, three cycles *)

Module Scenario.

Definition base : string := "https://www.boligportal.dk/lejligheder/x/".

Definition cfg : Config :=
  {| bot_token := "t0ken"; chat_id := "42"; areas := [("X", base)];
     max_price := 10000; min_rooms := Py.float_of_Z 2; min_sqm := 50 |}.

Definition card (h t p : string) : Card :=
  {| href := Some h; title_el := Some t; location_el := Some "Aarhus C";
     price_el := Some p |}.

Definition card_A : Card := card "/a" " 3 vær. lejlighed på 75 m² " "9.500 kr.".
Definition card_B : Card := card "/b" "4 vær. lejlighed på 90 m²" "15.000 kr.".
Definition card_C : Card := card "/c" "2 vær. lejlighed på 60 m²" "8.000 kr.".

Definition url_A : string := "https://www.boligportal.dk/a".
Definition url_B : string := "https://www.boligportal.dk/b".
Definition url_C : string := "https://www.boligportal.dk/c".

Definition results (cs : list Card) : Soup := {| cards := cs; time_el := None |}.
Definition detail (t : string) : Soup := {| cards := []; time_el := Some t |}.

(** A feed whose first page shows [cs] and whose further pages are empty;
    every other address is a detail page. *)
Definition feed (cs : list Card) : World :=
  {| fetch := λ url,
       if String.eqb url base then Ret (results cs)
       else if String.prefix base url then Ret (results [])
       else Ret (detail " i dag ");
     post := λ _, Ret 200%Z |}.

Definition out : Outside :=
  {| world_at := λ n,
       match n with
       | 0 => feed [card_A; card_B]
       | 1 => feed [card_A; card_C]
       | _ => feed []
       end;
     interrupted_sleep := λ n, Nat.leb 2 n |}.

Definition start : State := {| listings := ∅; found_urls := []; trace := [] |}.

Definition listing_A : Listing :=
  {| area := Some "X"; title := "3 vær. lejlighed på 75 m²"; location := "Aarhus C";
     description := "3 vær. lejlighed på 75 m²"; price := "9.500 kr.";
     rooms := Py.float_of_Z 3; sqm := 75; timestamp := "i dag" |}.

Definition listing_C : Listing :=
  {| area := Some "X"; title := "2 vær. lejlighed på 60 m²"; location := "Aarhus C";
     description := "2 vær. lejlighed på 60 m²"; price := "8.000 kr.";
     rooms := Py.float_of_Z 2; sqm := 60; timestamp := "i dag" |}.

(** The state after the first [n] cycles. *)
Fixpoint after_cycles (n : nat) : State :=
  match n with
  | O => start
  | S k => snd (cycle cfg out k (after_cycles k))
  end.

(** The same feed when the driver cannot load a detail page. *)
Definition broken_detail (cs : list Card) : World :=
  {| fetch := λ url,
       if String.eqb url base then Ret (results cs)
       else if String.prefix base url then Ret (results [])
       else Raise WebDriverException;
     post := λ _, Ret 200%Z |}.

(** A store that already holds one listing of another area. *)
Definition listing_Y : Listing :=
  {| area := Some "Y"; title := "5 vær. villa på 140 m²"; location := "Odense";
     description := "5 vær. villa på 140 m²"; price := "9.900 kr.";
     rooms := Py.float_of_Z 5; sqm := 140; timestamp := "i går" |}.

Definition url_Y : string := "https://www.boligportal.dk/y".

Definition with_Y : State :=
  {| listings := {[ url_Y := listing_Y ]}; found_urls := []; trace := [] |}.

(** Two areas whose feeds show the same address with different texts. *)
Definition base_2 : string := "https://www.boligportal.dk/lejligheder/z/".

Definition cfg_2 : Config :=
  {| bot_token := "t0ken"; chat_id := "42"; areas := [("X", base); ("Z", base_2)];
     max_price := 10000; min_rooms := Py.float_of_Z 2; min_sqm := 50 |}.

Definition card_U_in_X : Card := card "/u" "3 vær. lejlighed på 75 m²" "9.500 kr.".
Definition card_U_in_Z : Card := card "/u" "4 vær. lejlighed på 80 m²" "9.900 kr.".
Definition url_U : string := "https://www.boligportal.dk/u".

Definition shared : World :=
  {| fetch := λ url,
       if String.eqb url base then Ret (results [card_U_in_X])
       else if String.eqb url base_2 then Ret (results [card_U_in_Z])
       else if String.prefix base url || String.prefix base_2 url then Ret (results [])
       else Ret (detail "i dag");
     post := λ _, Ret 200%Z |}.

Definition out_2 : Outside :=
  {| world_at := λ _, shared; interrupted_sleep := λ _, true |}.

Definition listing_U_of_X : Listing :=
  {| area := Some "X"; title := "3 vær. lejlighed på 75 m²"; location := "Aarhus C";
     description := "3 vær. lejlighed på 75 m²"; price := "9.500 kr.";
     rooms := Py.float_of_Z 3; sqm := 75; timestamp := "i dag" |}.

Definition listing_U_of_Z : Listing :=
  {| area := Some "Z"; title := "4 vær. lejlighed på 80 m²"; location := "Aarhus C";
     description := "4 vær. lejlighed på 80 m²"; price := "9.900 kr.";
     rooms := Py.float_of_Z 4; sqm := 80; timestamp := "i dag" |}.

(** A feed whose detail pages load without the timestamp element. *)
Definition no_timestamp : World :=
  {| fetch := λ url,
       if String.eqb url base then Ret (results [card_A])
       else Ret (results []);
     post := λ _, Ret 200%Z |}.

(** Cards without a usable [href]. *)
Definition card_no_href : Card :=
  {| href := None; title_el := Some "3 vær. lejlighed på 75 m²";
     location_el := Some "Aarhus C"; price_el := Some "9.500 kr." |}.

Definition card_empty_href : Card :=
  {| href := Some EmptyString; title_el := Some "3 vær. lejlighed på 75 m²";
     location_el := Some "Aarhus C"; price_el := Some "9.500 kr." |}.

(** No area configured, as when [BOLIG_PORTAL_AREAS_JSON] is unset. *)
Definition cfg_0 : Config :=
  {| bot_token := "t0ken"; chat_id := "42"; areas := [];
     max_price := 999999; min_rooms := Py.float_of_Z 1; min_sqm := 0 |}.

End Scenario.

(** ** Notions used to state further properties *)


(** The identity a notification is about, for a post. *)
Definition post_url (e : Event) : option string :=
  match e with
  | TelegramPost _ m => Some (msg_url m)
  | _ => None
  end.

(** The identities posted in a trace, in order. *)
Definition posts (tr : list Event) : list string := omap post_url tr.

(** The message shows what the listing stored under [k] holds. *)
Definition describes (m : Message) (k : string) (l : Listing) : Prop :=
  msg_url m = k ∧ area l = Some (msg_area m) ∧ msg_rooms m = rooms l ∧
  msg_sqm m = sqm l ∧ msg_price m = price l.

(** What a listing stored by the crawl of [area_name] under [k] satisfies:
    its numbers are the parse of its own texts and pass the admission test,
    and its timestamp is read from the page at [k]. *)
Definition admitted (cfg : Config) (w : World) (area_name k : string) (l : Listing) : Prop :=
  area l = Some area_name ∧
  description l = title l ∧
  _parse_rooms (title l) = Ret (rooms l) ∧
  _parse_sqm (title l) = Ret (sqm l) ∧
  (∃ p, _parse_price (price l) = Ret p ∧ _meets_criteria cfg (rooms l) (sqm l) p = true) ∧
  (∃ soup, fetch w k = Ret soup ∧ timestamp l = text_or_empty (time_el soup)).

(** What an event of a crawl may be, between the states [st] and [st']. *)
Definition crawl_event (cfg : Config) (is_page : string → Prop) (st st' : State)
    (e : Event) : Prop :=
  match e with
  | DriverGet u => is_page u ∨ (listings st !! u = None ∧ u ∈ found_urls st')
  | TelegramPost c m =>
      c = chat_id cfg ∧ credentials_missing cfg = false ∧
      listings st !! msg_url m = None ∧ msg_url m ∈ found_urls st' ∧
      ∃ l, listings st' !! msg_url m = Some l ∧ describes m (msg_url m) l
  | PrintSkipped => credentials_missing cfg = true
  | PrintFailed status => status ≠ 200%Z
  | _ => False
  end.

(** The crawl went from [st] to [st'] with the events [evs]. *)
Definition tracked (cfg : Config) (is_page : string → Prop) (st st' : State)
    (evs : list Event) : Prop :=
  trace st' = trace st ++ evs ∧
  Forall (crawl_event cfg is_page st st') evs ∧
  NoDup (posts evs).






(** * Facts *)

(** ** Strings *)

Section StringFacts.

Implicit Types (s a b : string) (p : ascii → bool).


Lemma app_cons c a b : String c a +:+ b = String c (a +:+ b).
Proof. reflexivity. Qed.

Lemma length_app a b : String.length (a +:+ b) = String.length a + String.length b.
Proof.
  induction a as [|c a IH]; [done |].
  rewrite app_cons. simpl. by rewrite IH.
Qed.


Lemma app_assoc' a b c : (a +:+ b) +:+ c = a +:+ (b +:+ c).
Proof. induction a as [|x a IH]; [done |]. by rewrite !app_cons, IH. Qed.



Lemma span_app p s a b : Str.span p s = (a, b) → s = a +:+ b.
Proof.
  revert a b. induction s as [|c s IH]; simpl; intros a b H.
  - by inversion H.
  - destruct (p c).
    + destruct (Str.span p s) as [a' b'] eqn:E. inversion H; subst.
      rewrite app_cons. f_equal. by apply IH.
    + by inversion H.
Qed.


Lemma span_stop p s a b : Str.span p s = (a, b) → stops p b.
Proof.
  revert a b. induction s as [|c s IH]; simpl; intros a b H.
  - by inversion H.
  - destruct (p c) eqn:Hc.
    + destruct (Str.span p s) as [a' b'] eqn:E. inversion H; subst.
      by eapply IH.
    + inversion H; subst. done.
Qed.


End StringFacts.

(** ** The matcher against maximal runs *)

Section RegexFacts.

(** *** The fuel of the matcher is enough

    The loops of [exec] and [scan] are cut by a fuel that starts above the
    length of the text.  None of them runs out of it: each satisfies the
    equation of the loop it stands for, where no fuel appears. *)

Lemma exec_ext {A} r : ∀ s (k1 k2 : string → option A),
  (∀ s', k1 s' = k2 s') → Re.exec r s k1 = Re.exec r s k2.
Proof.
  induction r as [p | r1 IH1 r2 IH2 | r IH | r IH]; intros s k1 k2 Hk; cbn [Re.exec].
  - destruct s as [|c s']; [done |]. destruct (p c); [apply Hk | done].
  - apply IH1. intros s1. by apply IH2.
  - by rewrite (IH s k1 k2 Hk), Hk.
  - generalize (S (String.length s)). intros fuel. revert s.
    induction fuel as [|fuel IHf]; intros s; [done |].
    cbn [Re.plus_loop]. apply IH. intros s1. rewrite Hk.
    destruct (Nat.ltb _ _); [by rewrite IHf | done].
Qed.

Lemma plus_loop_fuel {A} r (k : string → option A) : ∀ f1 f2 s,
  String.length s < f1 → String.length s < f2 →
  Re.plus_loop (Re.exec r) k f1 s = Re.plus_loop (Re.exec r) k f2 s.
Proof.
  induction f1 as [|f1 IH]; intros f2 s H1 H2; [lia |].
  destruct f2 as [|f2]; [lia |].
  cbn [Re.plus_loop]. apply exec_ext. intros s1.
  destruct (Nat.ltb _ _) eqn:Hlt; [| done].
  apply Nat.ltb_lt in Hlt. rewrite (IH f2 s1); [done | lia..].
Qed.

(** [r+] is one [r], then [r+] again if that [r] read something, else on. *)
Lemma exec_plus_unfold {A} r s (k : string → option A) :
  Re.exec (Re.Plus r) s k =
  Re.exec r s (λ s1,
    Re.or_else
      (if Nat.ltb (String.length s1) (String.length s)
       then Re.exec (Re.Plus r) s1 k else None)
      (k s1)).
Proof.
  cbn [Re.exec Re.plus_loop]. apply exec_ext. intros s1.
  destruct (Nat.ltb _ _) eqn:Hlt; [| done].
  apply Nat.ltb_lt in Hlt. rewrite (plus_loop_fuel r k _ (S (String.length s1)) s1); [done | lia..].
Qed.

(** The continuation is only ever given a text that is no longer. *)
Lemma exec_shorter {A} r : ∀ s (k : string → option A) x,
  Re.exec r s k = Some x →
  ∃ s', (String.length s' ≤ String.length s)%nat ∧ k s' = Some x.
Proof.
  induction r as [p | r1 IH1 r2 IH2 | r IH | r IH]; intros s k x; cbn [Re.exec].
  - destruct s as [|c s']; [done |]. destruct (p c); [| done].
    intros Hk. exists s'. split; [simpl; lia | done].
  - intros H. apply IH1 in H as (s1 & Hl1 & H). apply IH2 in H as (s2 & Hl2 & H).
    exists s2. split; [lia | done].
  - destruct (Re.exec r s k) as [y|] eqn:E; cbn [Re.or_else].
    + intros [= ->]. by apply IH in E.
    + intros Hk. by exists s.
  - generalize (S (String.length s)). intros fuel. revert s.
    induction fuel as [|fuel IHf]; intros s; [done |].
    cbn [Re.plus_loop]. intros H. apply IH in H as (s1 & Hl1 & H).
    destruct (Nat.ltb _ _).
    + destruct (Re.plus_loop _ _ _ _) as [y|] eqn:E; cbn [Re.or_else] in H.
      * injection H as ->. apply IHf in E as (s2 & Hl2 & E).
        exists s2. split; [lia | done].
      * by exists s1.
    + by exists s1.
Qed.

Lemma match_at_split r s m rest :
  Re.match_at r s = Some (m, rest) →
  (String.length rest ≤ String.length s)%nat ∧
  m = Str.take (String.length s - String.length rest) s.
Proof.
  unfold Re.match_at. destruct (Re.exec r s Some) as [rest'|] eqn:E; [| done].
  intros [= <- <-]. apply exec_shorter in E as (s' & Hl & [= ->]). done.
Qed.

Lemma match_at_progress r s c m rest :
  Re.match_at r s = Some (String c m, rest) → String.length rest < String.length s.
Proof.
  intros [Hl Hm]%match_at_split.
  destruct (decide (String.length rest < String.length s)) as [|Hge]; [done |].
  replace (String.length s - String.length rest) with 0 in Hm by lia.
  by destruct s.
Qed.

Lemma scan_fuel_enough r : ∀ f1 f2 s,
  String.length s < f1 → String.length s < f2 →
  Re.scan_fuel f1 r s = Re.scan_fuel f2 r s.
Proof.
  induction f1 as [|f1 IH]; intros f2 s H1 H2; [lia |].
  destruct f2 as [|f2]; [lia |]. cbn [Re.scan_fuel].
  destruct (Re.match_at r s) as [[[|c m] rest]|] eqn:E.
  - destruct s as [|c s']; [done |]. simpl in H1, H2. by rewrite (IH f2 s') by lia.
  - apply match_at_progress in E. by rewrite (IH f2 rest) by lia.
  - destruct s as [|c s']; [done |]. simpl in H1, H2. by rewrite (IH f2 s') by lia.
Qed.

Lemma scan_fuel_S fuel r s :
  Re.scan_fuel (S fuel) r s =
  match Re.match_at r s, s with
  | Some (EmptyString, _), EmptyString => [inr EmptyString]
  | Some (EmptyString, _), String c s' => inr EmptyString :: inl c :: Re.scan_fuel fuel r s'
  | Some (m, rest), _ => inr m :: Re.scan_fuel fuel r rest
  | None, EmptyString => []
  | None, String c s' => inl c :: Re.scan_fuel fuel r s'
  end.
Proof. reflexivity. Qed.

(** The scan, without its fuel. *)
Lemma scan_unfold r s :
  Re.scan r s =
  match Re.match_at r s, s with
  | Some (EmptyString, _), EmptyString => [inr EmptyString]
  | Some (EmptyString, _), String c s' => inr EmptyString :: inl c :: Re.scan r s'
  | Some (m, rest), _ => inr m :: Re.scan r rest
  | None, EmptyString => []
  | None, String c s' => inl c :: Re.scan r s'
  end.
Proof.
  unfold Re.scan. rewrite scan_fuel_S.
  destruct (Re.match_at r s) as [[[|c m] rest]|] eqn:E.
  - by destruct s.
  - apply match_at_progress in E. f_equal. apply scan_fuel_enough; lia.
  - by destruct s.
Qed.

(** *** Runs of a class *)





Lemma at_head_text sep s t rest :
  Token.at_head sep s = Some (t, rest) → s = Token.text t +:+ rest.
Proof.
  unfold Token.at_head.
  destruct (Str.span Str.is_digit s) as [ip r] eqn:E.
  apply span_app in E. subst s.
  destruct ip as [|d ip]; [done |].
  destruct r as [|c r'].
  { intros [= <- <-]. done. }
  destruct (sep c).
  - destruct (Str.span Str.is_digit r') as [fp r''] eqn:E'.
    apply span_app in E'. subst r'.
    destruct fp as [|x fp]; intros [= <- <-]; [done |].
    simpl. by rewrite app_assoc', (app_cons c).
  - intros [= <- <-]. done.
Qed.





(** A token is never empty, so the scan never takes its empty-match
    branch on these patterns. *)
Lemma at_head_nonempty sep s t rest :
  Token.at_head sep s = Some (t, rest) →
  ∃ c m, Token.text t = String c m.
Proof.
  unfold Token.at_head.
  destruct (Str.span Str.is_digit s) as [[|d ip] r]; [done |].
  destruct r as [|c r']; [intros [= <- <-]; by eexists _, _ |].
  destruct (sep c); [| intros [= <- <-]; by eexists _, _].
  destruct (Str.span Str.is_digit r') as [[|x fp] r''];
    intros [= <- <-]; by eexists _, _.
Qed.



End RegexFacts.

(** ** Tokens read back by [float] *)

Section TokenFacts.




Lemma at_head_progress sep s t rest :
  Token.at_head sep s = Some (t, rest) → String.length rest < String.length s.
Proof.
  intros H. destruct (at_head_nonempty _ _ _ _ H) as (c & m & Ht).
  apply at_head_text in H. subst s. rewrite Ht, length_app. simpl. lia.
Qed.

Lemma all_fuel_enough sep : ∀ f1 f2 s,
  String.length s < f1 → String.length s < f2 →
  Token.all_fuel f1 sep s = Token.all_fuel f2 sep s.
Proof.
  induction f1 as [|f1 IH]; intros f2 s H1 H2; [lia |].
  destruct f2 as [|f2]; [lia |]. cbn [Token.all_fuel].
  destruct (Token.at_head sep s) as [[t rest]|] eqn:E.
  - apply at_head_progress in E. by rewrite (IH f2 rest) by lia.
  - destruct s as [|c s']; [done |]. simpl in H1, H2. by rewrite (IH f2 s') by lia.
Qed.

(** The tokens of a text, without the fuel of the scan. *)
Lemma all_unfold sep s :
  Token.all sep s =
  match Token.at_head sep s, s with
  | Some (t, rest), _ => t :: Token.all sep rest
  | None, String _ s' => Token.all sep s'
  | None, EmptyString => []
  end.
Proof.
  unfold Token.all.
  change (Token.all_fuel (S (String.length s)) sep s)
    with (match Token.at_head sep s, s with
          | Some (t, rest), _ => t :: Token.all_fuel (String.length s) sep rest
          | None, String _ s' => Token.all_fuel (String.length s) sep s'
          | None, EmptyString => []
          end).
  destruct (Token.at_head sep s) as [[t rest]|] eqn:E.
  - apply at_head_progress in E. f_equal. apply all_fuel_enough; lia.
  - by destruct s.
Qed.















End TokenFacts.

Section CrawlFacts.

Variable cfg : Config.
Variable w : World.

Lemma card_body_eq area_name card st :
  card_body cfg w area_name card st =
  match card_url card with
  | None => (Ret tt, st)
  | Some u =>
      let st1 := push_found u st in
      if decide (is_Some (listings st !! u)) then (Ret tt, st1)
      else
        match verdict_of cfg w area_name card u with
        | Reject => (Ret tt, st1)
        | ParseFail e => (Raise e, st1)
        | DetailFail e => (Raise e, log [DriverGet u] st1)
        | Accept l m =>
            _send_telegram_notification cfg w m (store u l (log [DriverGet u] st1))
        end
  end.
Proof.
  unfold card_body, card_url.
  destruct (href card) as [[|c h]|]; try done.
  fold site.
  unfold bind, ret, lift, get_found, set_found, get_listings, set_listings,
    _scrape_page, emit, verdict_of, push_found, log, store.
  cbn [default id Str.nonempty negb listings found_urls trace].
  destruct (decide (is_Some (listings st !! (site +:+ String c h)))) as [Hk|Hk]; [done |].
  destruct (_parse_rooms _) as [rooms_val|e]; [| done].
  destruct (_parse_sqm _) as [sqm_val|e]; [| done].
  destruct (_parse_price _) as [price_val|e]; [| done].
  destruct (negb (_meets_criteria _ _ _ _)); [done |].
  destruct (fetch w _) as [detail_soup|e]; done.
Qed.

Lemma notify_eq m st :
  _send_telegram_notification cfg w m st =
  (notify_result cfg w m, log (notify_events cfg w m) st).
Proof.
  unfold _send_telegram_notification, notify_result, notify_events, credentials_missing.
  destruct (negb _ || negb _); [done |].
  unfold bind, emit, lift, ret, log. cbn [listings found_urls trace].
  destruct (post w m) as [status|e].
  - destruct (decide (status = 200%Z)); cbn; by rewrite <- ?app_assoc.
  - done.
Qed.

Lemma for_each_cons {A} (body : A → M unit) x l st :
  for_each body (x :: l) st =
  match body x st with
  | (Ret _, st1) => for_each body l st1
  | (Raise e, st1) => (Raise e, st1)
  end.
Proof. reflexivity. Qed.

Lemma page_loop_cons area_name base_url i idxs st :
  page_loop cfg w area_name base_url (i :: idxs) st =
  let st0 := log [DriverGet (page_url base_url i)] st in
  match fetch w (page_url base_url i) with
  | Raise e => (Raise e, st0)
  | Ret soup =>
      if Nat.eqb i 0 && is_nil (cards soup) then (Ret tt, st0)
      else
        match for_each (card_body cfg w area_name) (cards soup) st0 with
        | (Ret _, st1) => page_loop cfg w area_name base_url idxs st1
        | (Raise e, st1) => (Raise e, st1)
        end
  end.
Proof.
  cbn [page_loop]. unfold _scrape_page, bind, emit, lift, ret, log.
  destruct (fetch w _) as [soup|e]; [| done].
  by destruct (Nat.eqb i 0 && is_nil (cards soup)).
Qed.

(** *** The store only grows while the pages are read *)

Lemma grows_refl area_name st : grows area_name [] st st.
Proof. split_and!; [done | by rewrite app_nil_r | intros ???; by left]. Qed.

Lemma grows_trans area_name n1 n2 st1 st2 st3 :
  grows area_name n1 st1 st2 → grows area_name n2 st2 st3 →
  grows area_name (n1 ++ n2) st1 st3.
Proof.
  intros (Hs1 & Hf1 & Hn1) (Hs2 & Hf2 & Hn2). split_and!.
  - by etrans.
  - by rewrite Hf2, Hf1, app_assoc.
  - intros k l Hk. destruct (Hn2 k l Hk) as [Hk2 | [Ha Hin]].
    + destruct (Hn1 k l Hk2) as [? | [Ha Hin]]; [by left | right].
      split; [done | set_solver].
    + right. split; [done | set_solver].
Qed.

Lemma grows_log area_name evs st : grows area_name [] st (log evs st).
Proof. split_and!; [done | by rewrite app_nil_r | intros ???; by left]. Qed.

Lemma card_body_grows area_name card st r st' :
  card_body cfg w area_name card st = (r, st') →
  grows area_name (option_list (card_url card)) st st'.
Proof.
  rewrite card_body_eq.
  destruct (card_url card) as [u|]; [| intros [= <- <-]; apply grows_refl].
  cbn zeta. destruct (decide _) as [Hk|Hk].
  { intros [= <- <-]. split_and!; [done | done | intros ???; by left]. }
  destruct (verdict_of _ _ _ _ _) as [|e|e|l m] eqn:Hv.
  1-3: intros [= <- <-]; split_and!; [done | done | intros ???; by left].
  rewrite notify_eq. intros [= <- <-].
  assert (listings st !! u = None) as Hnone.
  { destruct (listings st !! u) eqn:E; [| done]. destruct Hk. by eexists. }
  unfold grows, log, store, push_found. cbn [listings found_urls trace].
  split_and!; [by apply insert_subseteq | done |].
  intros k l' [[<- <-] | [Hne Hl']]%lookup_insert_Some; [| by left].
  right. split; [| set_solver].
  unfold verdict_of in Hv.
  repeat (match type of Hv with
          | context [match ?x with _ => _ end] => destruct x; try done
          end).
  by injection Hv as <- <-.
Qed.

Lemma for_each_grows area_name cs st r st' :
  for_each (card_body cfg w area_name) cs st = (r, st') →
  ∃ new, grows area_name new st st' ∧
         ∀ u, u ∈ new → ∃ card, card ∈ cs ∧ card_url card = Some u.
Proof.
  revert st. induction cs as [|c cs IH]; intros st.
  { intros [= <- <-]. exists []. split; [apply grows_refl | set_solver]. }
  rewrite for_each_cons.
  destruct (card_body cfg w area_name c st) as [[[]|e] st1] eqn:Hc.
  - intros H. destruct (IH _ H) as (n2 & Hg & Hin).
    exists (option_list (card_url c) ++ n2). split.
    + eapply grows_trans; [by eapply card_body_grows | done].
    + intros u [Hu | Hu]%elem_of_app.
      * exists c. split; [apply list_elem_of_here |].
        destruct (card_url c) as [u'|]; simpl in Hu;
          [by apply list_elem_of_singleton in Hu as -> | by apply elem_of_nil in Hu].
      * destruct (Hin u Hu) as (c' & ? & ?). exists c'. set_solver.
  - intros [= <- <-]. exists (option_list (card_url c)). split.
    + by eapply card_body_grows.
    + intros u Hu. exists c. split; [apply list_elem_of_here |].
      destruct (card_url c) as [u'|]; simpl in Hu;
        [by apply list_elem_of_singleton in Hu as -> | by apply elem_of_nil in Hu].
Qed.

Lemma page_loop_grows area_name base_url idxs st r st' :
  page_loop cfg w area_name base_url idxs st = (r, st') →
  ∃ new, grows area_name new st st' ∧
         ∀ u, u ∈ new →
           ∃ i soup card, i ∈ idxs ∧ fetch w (page_url base_url i) = Ret soup ∧
                          card ∈ cards soup ∧ card_url card = Some u.
Proof.
  revert st. induction idxs as [|i idxs IH]; intros st.
  { intros [= <- <-]. exists []. split; [apply grows_refl | set_solver]. }
  rewrite page_loop_cons. cbn zeta.
  destruct (fetch w (page_url base_url i)) as [soup|e] eqn:Hf.
  2: { intros [= <- <-]. exists []. split; [apply grows_log | set_solver]. }
  destruct (Nat.eqb i 0 && is_nil (cards soup)).
  { intros [= <- <-]. exists []. split; [apply grows_log | set_solver]. }
  destruct (for_each _ _ _) as [[[]|e] st1] eqn:Hc;
    apply for_each_grows in Hc as (n1 & Hg1 & Hin1).
  - intros H. destruct (IH _ H) as (n2 & Hg2 & Hin2).
    exists (n1 ++ n2). split.
    + change (n1 ++ n2) with ([] ++ (n1 ++ n2)).
      eapply grows_trans; [apply grows_log |]. by eapply grows_trans.
    + intros u [Hu | Hu]%elem_of_app.
      * destruct (Hin1 u Hu) as (c & ? & ?). exists i, soup, c. set_solver.
      * destruct (Hin2 u Hu) as (j & sp & c & ? & ? & ? & ?).
        exists j, sp, c. set_solver.
  - intros [= <- <-]. exists n1. split.
    + change n1 with ([] ++ n1). eapply grows_trans; [apply grows_log | done].
    + intros u Hu. destruct (Hin1 u Hu) as (c & ? & ?). exists i, soup, c. set_solver.
Qed.

(** *** Pruning, key by key *)

Lemma prune_fold_lookup area_name found ks :
  NoDup ks →
  ∀ ls k,
    foldl (prune_step area_name found) ls ks !! k =
    if bool_decide (k ∈ ks) then
      match ls !! k with
      | Some l => if stale area_name found k l then None else Some l
      | None => None
      end
    else ls !! k.
Proof.
  induction 1 as [|x ks Hx Hnd IH]; intros ls k; [done |].
  cbn [foldl]. rewrite IH.
  assert (∀ j, j ≠ x → prune_step area_name found ls x !! j = ls !! j) as Hother.
  { intros j Hj. unfold prune_step. destruct (ls !! x) as [l|]; [| done].
    destruct (_ && _); [by rewrite lookup_delete_ne | done]. }
  destruct (decide (k = x)) as [-> | Hne].
  - rewrite (bool_decide_eq_false_2 (x ∈ ks)) by done.
    rewrite (bool_decide_eq_true_2 (x ∈ x :: ks)) by set_solver.
    unfold prune_step, stale. destruct (ls !! x) as [l|] eqn:E; [| done].
    destruct (_ && _); [by rewrite lookup_delete_eq | done].
  - rewrite (Hother k Hne).
    destruct (decide (k ∈ ks)) as [Hin | Hin].
    + rewrite !bool_decide_eq_true_2 by (rewrite ?elem_of_cons; tauto). done.
    + rewrite !bool_decide_eq_false_2 by (rewrite ?not_elem_of_cons; tauto). done.
Qed.

Lemma lookup_prune area_name found ls k :
  prune area_name found ls !! k =
  match ls !! k with
  | Some l => if stale area_name found k l then None else Some l
  | None => None
  end.
Proof.
  unfold prune. rewrite prune_fold_lookup by apply NoDup_fst_map_to_list.
  destruct (ls !! k) as [l|] eqn:E.
  - rewrite bool_decide_eq_true_2; [done |].
    apply list_elem_of_fmap. exists (k, l). split; [done |].
    by apply elem_of_map_to_list.
  - by destruct (bool_decide _).
Qed.

Lemma prune_filter area_name found ls :
  prune area_name found ls =
  filter (λ kv, ¬ (area kv.2 = Some area_name ∧ kv.1 ∉ found)) ls.
Proof.
  apply map_eq. intros k. rewrite lookup_prune, map_lookup_filter.
  destruct (ls !! k) as [l|]; [| done]. cbn. unfold stale.
  case_bool_decide; case_bool_decide; cbn;
    (rewrite option_guard_True by tauto) || (rewrite option_guard_False by tauto); done.
Qed.


(** *** The unfolding of [_scrape_area] *)

Lemma scrape_area_eq area_name base_url st :
  _scrape_area cfg w area_name base_url st =
  match page_loop cfg w area_name base_url (seq 0 NUM_PAGES)
          {| listings := listings st; found_urls := []; trace := trace st |} with
  | (Ret _, st1) =>
      (Ret tt, {| listings := prune area_name (found_urls st1) (listings st1);
                  found_urls := found_urls st1; trace := trace st1 |})
  | (Raise e, st1) => (Raise e, st1)
  end.
Proof.
  unfold _scrape_area, bind, set_found, get_found, get_listings, set_listings.
  by destruct (page_loop _ _ _ _ _ _) as [[[]|e] st1].
Qed.

(** *** A second run over the same cards *)











(** *** One crawl of an area, key by key *)

Lemma seq_pages : seq 0 NUM_PAGES = [0; 1; 2].
Proof. reflexivity. Qed.

Lemma page_url_0 base_url : page_url base_url 0 = base_url.
Proof. reflexivity. Qed.

Lemma scrape_area_kept area_name base_url st k l :
  listings st !! k = Some l →
  listings (_scrape_area cfg w area_name base_url st).2 !! k =
  match (_scrape_area cfg w area_name base_url st).1 with
  | Ret _ =>
      if stale area_name (found_urls (_scrape_area cfg w area_name base_url st).2) k l
      then None else Some l
  | Raise _ => Some l
  end.
Proof.
  intros Hk. rewrite scrape_area_eq.
  destruct (page_loop _ _ _ _ _ _) as [[[]|e] st1] eqn:Hloop;
    apply page_loop_grows in Hloop as (new & (Hsub & _ & _) & _); cbn in *.
  - rewrite lookup_prune. by rewrite (lookup_weaken _ _ _ _ Hk Hsub).
  - by eapply lookup_weaken.
Qed.

Lemma scrape_area_new area_name base_url st k l :
  listings st !! k = None →
  listings (_scrape_area cfg w area_name base_url st).2 !! k = Some l →
  area l = Some area_name ∧ k ∈ found_urls (_scrape_area cfg w area_name base_url st).2.
Proof.
  intros Hk. rewrite scrape_area_eq.
  destruct (page_loop _ _ _ _ _ _) as [[[]|e] st1] eqn:Hloop;
    apply page_loop_grows in Hloop as (new & (_ & Hf & Hnew) & _); cbn in *.
  - rewrite lookup_prune. destruct (listings st1 !! k) as [l'|] eqn:E; [| done].
    destruct (stale _ _ _ _); [done |]. intros [= ->].
    destruct (Hnew k l E) as [? | [? ?]]; [congruence |].
    split; [done |]. rewrite Hf. set_solver.
  - intros E. destruct (Hnew k l E) as [? | [? ?]]; [congruence |].
    split; [done |]. rewrite Hf. set_solver.
Qed.

Lemma scrape_area_found area_name base_url st u :
  u ∈ found_urls (_scrape_area cfg w area_name base_url st).2 →
  ∃ i soup card, i < NUM_PAGES ∧ fetch w (page_url base_url i) = Ret soup ∧
                 card ∈ cards soup ∧ card_url card = Some u.
Proof.
  rewrite scrape_area_eq.
  destruct (page_loop _ _ _ _ _ _) as [[[]|e] st1] eqn:Hloop;
    apply page_loop_grows in Hloop as (new & (_ & Hf & _) & Hin);
    cbn [fst snd listings found_urls] in *;
    rewrite Hf; intros Hu; destruct (Hin u Hu) as (i & soup & card & Hi & ? & ? & ?);
    exists i, soup, card; split_and!; try done;
    apply elem_of_seq in Hi; lia.
Qed.

Lemma scrape_area_empty_first_page area_name base_url st soup :
  fetch w base_url = Ret soup → cards soup = [] →
  _scrape_area cfg w area_name base_url st =
  (Ret tt, {| listings := prune area_name [] (listings st); found_urls := [];
              trace := trace st ++ [DriverGet base_url] |}).
Proof.
  intros Hf Hc. rewrite scrape_area_eq, seq_pages, page_loop_cons, page_url_0, Hf, Hc.
  reflexivity.
Qed.

End CrawlFacts.

(** ** The driver is released by [finally] *)

Section RunFacts.

Variable cfg : Config.

Lemma quits_app t1 t2 : quits (t1 ++ t2) = quits t1 + quits t2.
Proof. induction t1 as [|e t1 IH]; cbn; [done | rewrite IH; lia]. Qed.

Lemma notify_events_quits w m : quits (notify_events cfg w m) = 0.
Proof.
  unfold notify_events. destruct credentials_missing; [done |].
  destruct (post w m) as [status|e]; [| done].
  by destruct (decide _).
Qed.

Lemma card_body_quits w area_name card st :
  quits (trace (card_body cfg w area_name card st).2) = quits (trace st).
Proof.
  rewrite card_body_eq. destruct (card_url card) as [u|]; [| done].
  cbn zeta. destruct (decide _); [done |].
  destruct (verdict_of _ _ _ _ _) as [|e|e|l m]; cbn; try done.
  - rewrite quits_app. cbn. lia.
  - rewrite notify_eq. cbn. rewrite !quits_app, notify_events_quits. cbn. lia.
Qed.

Lemma for_each_quits {A} (body : A → M unit) l :
  (∀ x st, quits (trace (body x st).2) = quits (trace st)) →
  ∀ st, quits (trace (for_each body l st).2) = quits (trace st).
Proof.
  intros Hbody. induction l as [|x l IH]; intros st; [done |].
  rewrite for_each_cons. specialize (Hbody x st).
  destruct (body x st) as [[[]|e] st1]; cbn in *; [by rewrite IH | done].
Qed.

Lemma page_loop_quits w area_name base_url idxs st :
  quits (trace (page_loop cfg w area_name base_url idxs st).2) = quits (trace st).
Proof.
  revert st. induction idxs as [|i idxs IH]; intros st; [done |].
  rewrite page_loop_cons. cbn zeta.
  assert (quits (trace (log [DriverGet (page_url base_url i)] st)) = quits (trace st)) as Hlog.
  { cbn. rewrite quits_app. cbn. lia. }
  destruct (fetch w _) as [soup|e]; [| done].
  destruct (_ && _); [done |].
  pose proof (for_each_quits (card_body cfg w area_name) (cards soup)
                (card_body_quits w area_name)
                (log [DriverGet (page_url base_url i)] st)) as Hcards.
  destruct (for_each _ _ _) as [[[]|e] st1]; cbn [snd] in *.
  - rewrite IH. congruence.
  - congruence.
Qed.

Lemma scrape_area_quits w area_name base_url st :
  quits (trace (_scrape_area cfg w area_name base_url st).2) = quits (trace st).
Proof.
  rewrite scrape_area_eq.
  pose proof (page_loop_quits w area_name base_url (seq 0 NUM_PAGES)
                {| listings := listings st; found_urls := []; trace := trace st |}) as H.
  by destruct (page_loop _ _ _ _ _ _) as [[[]|e] st1].
Qed.

Variable out : Outside.

Lemma cycle_quits n st : quits (trace (cycle cfg out n st).2) = quits (trace st).
Proof.
  unfold cycle, crawl_areas, bind.
  pose proof (for_each_quits
                (λ a, _scrape_area cfg (world_at out n) a.1 a.2) (areas cfg)
                (λ a st0, scrape_area_quits (world_at out n) a.1 a.2 st0) st) as H.
  destruct (for_each _ _ _) as [[[]|e] st1]; cbn [snd] in *; [| done].
  unfold _save_listings, sleep_cycle, bind, get_listings, emit, lift, ret. cbn.
  destruct (interrupted_sleep out n); cbn; rewrite !quits_app; cbn; lia.
Qed.

Lemma cycles_quits fuel n st e st' :
  cycles cfg out fuel n st = Some (e, st') → quits (trace st') = quits (trace st).
Proof.
  revert n st. induction fuel as [|fuel IH]; intros n st; [done |].
  cbn [cycles]. pose proof (cycle_quits n st) as Hc.
  destruct (cycle cfg out n st) as [[[]|e1] st1]; cbn [snd] in Hc.
  - intros H. apply IH in H. congruence.
  - intros [= <- <-]. done.
Qed.

(** With at least one area, every execution of [run] that ends has gone
    through [finally] and released the driver once. *)
Lemma run_quits_once fuel st r st' :
  areas cfg ≠ [] →
  run cfg out fuel st = Some (r, st') →
  quits (trace st') = quits (trace st) + 1.
Proof.
  intros Hareas. unfold run.
  destruct (areas cfg) as [|a l]; [done |]. cbn [is_nil].
  destruct (cycles cfg out fuel 0 st) as [[e st1]|] eqn:Hc; [| done].
  apply cycles_quits in Hc.
  assert (quits (trace (finally_block st1).2) = quits (trace st) + 1) as Hfin.
  { unfold finally_block, _save_listings, bind, emit, get_listings. cbn.
    rewrite !quits_app. cbn. lia. }
  destruct (decide _); intros [= <- <-]; done.
Qed.

End RunFacts.

(** * The claims *)

Section Claims.

Import Scenario.

Lemma stale_true area_name found k l :
  stale area_name found k l = true ↔ area l = Some area_name ∧ k ∉ found.
Proof.
  unfold stale. rewrite andb_true_iff, negb_true_iff, bool_decide_eq_true,
    bool_decide_eq_false. done.
Qed.

(** C1, as amended.  A listing stored before a crawl is gone after it
    exactly when the crawl returned without raising, the listing is filed
    under the crawled area, and its identity is not among the found ones;
    otherwise it is there unchanged.  A crawl that stops at an empty first
    page returns normally with nothing found, so it removes every stored
    listing of its area. *)
Theorem scrape_area_removal cfg w area_name base_url st k l :
  listings st !! k = Some l →
  let crawl := _scrape_area cfg w area_name base_url st in
  (listings crawl.2 !! k = None ↔
     crawl.1 = Ret tt ∧ area l = Some area_name ∧ k ∉ found_urls crawl.2) ∧
  (listings crawl.2 !! k = None ∨ listings crawl.2 !! k = Some l) ∧
  (empty_first_page w base_url → crawl.1 = Ret tt ∧ found_urls crawl.2 = []).
Proof.
  intros Hk crawl. subst crawl.
  pose proof (scrape_area_kept cfg w area_name base_url st k l Hk) as Hkept.
  split_and!.
  - rewrite Hkept. destruct (_scrape_area _ _ _ _ _).1 as [[]|e].
    + destruct (stale _ _ _ _) eqn:E.
      * apply stale_true in E. tauto.
      * split; [done |]. intros (_ & Ha & Hf).
        assert (stale area_name (found_urls (_scrape_area cfg w area_name base_url st).2) k l
                = true) as E' by by apply stale_true.
        congruence.
    + split; [done | by intros [? _]].
  - rewrite Hkept. destruct (_scrape_area _ _ _ _ _).1 as [[]|e]; [| by right].
    destruct (stale _ _ _ _); [by left | by right].
  - intros (soup & Hf & Hc).
    by rewrite (scrape_area_empty_first_page cfg w area_name base_url st soup Hf Hc).
Qed.

Lemma scrape_area_removal_witness :
  listings (after_cycles 2) !! url_A = Some listing_A ∧
  let crawl := _scrape_area cfg (feed []) "X" base (after_cycles 2) in
  (listings crawl.2 !! url_A = None ↔
     crawl.1 = Ret tt ∧ area listing_A = Some "X" ∧ url_A ∉ found_urls crawl.2) ∧
  (listings crawl.2 !! url_A = None ∨ listings crawl.2 !! url_A = Some listing_A) ∧
  (empty_first_page (feed []) base → crawl.1 = Ret tt ∧ found_urls crawl.2 = []).
Proof.
  split; [by vm_compute |].
  apply (scrape_area_removal cfg (feed []) "X" base (after_cycles 2) url_A listing_A).
  by vm_compute.
Defined.

(** C1, as stated, fails: the crawl below stops at an empty first page,
    and the stored listing A of the crawled area is removed all the same. *)
Lemma removal_after_empty_first_page :
  let crawl := _scrape_area cfg (feed []) "X" base (after_cycles 2) in
  listings (after_cycles 2) !! url_A = Some listing_A ∧
  ¬ (listings crawl.2 !! url_A = None ↔
     crawl.1 = Ret tt ∧ ¬ empty_first_page (feed []) base ∧
     area listing_A = Some "X" ∧ url_A ∉ found_urls crawl.2).
Proof.
  split; [by vm_compute |].
  intros [Hremoved _].
  destruct Hremoved as (_ & Hfull & _); [by vm_compute |].
  apply Hfull. by exists (results []).
Qed.

(** C2.  When the first page of an area loads without a card, the crawl
    fetches nothing else, finds nothing, returns normally, and leaves in
    the store exactly the listings filed under other areas.  In the
    three-cycle scenario the store holds A and C after the second cycle
    and is empty after the third, whose first page is empty. *)
Theorem empty_first_page_prunes_area :
  (∀ cfg w area_name base_url st soup,
     fetch w base_url = Ret soup → cards soup = [] →
     _scrape_area cfg w area_name base_url st =
     (Ret tt, {| listings := filter (λ kv, area kv.2 ≠ Some area_name) (listings st);
                 found_urls := [];
                 trace := trace st ++ [DriverGet base_url] |})) ∧
  listings (after_cycles 1) = {[ url_A := listing_A ]} ∧
  listings (after_cycles 2) = <[ url_C := listing_C ]> {[ url_A := listing_A ]} ∧
  listings (after_cycles 3) = ∅.
Proof.
  split_and!; [| by vm_compute..].
  intros cfg0 w area_name base_url st soup Hf Hc.
  rewrite (scrape_area_empty_first_page cfg0 w area_name base_url st soup Hf Hc).
  do 2 f_equal. rewrite prune_filter. apply map_filter_ext.
  intros k l _. cbn. split; [| tauto].
  intros H Ha. apply H. split; [done | apply not_elem_of_nil].
Qed.

Lemma empty_first_page_prunes_area_witness :
  _scrape_area cfg (feed []) "X" base (after_cycles 2) =
  (Ret tt, {| listings := filter (λ kv, area kv.2 ≠ Some "X") (listings (after_cycles 2));
              found_urls := [];
              trace := trace (after_cycles 2) ++ [DriverGet base] |}).
Proof.
  apply (proj1 empty_first_page_prunes_area cfg (feed []) "X" base (after_cycles 2)
           (results [])); reflexivity.
Defined.

(** The three cycles of the scenario, notification by notification. *)
Example three_cycles_notifications :
  trace (after_cycles 3) =
  [ DriverGet base; DriverGet url_A;
    TelegramPost "42" {| msg_area := "X"; msg_rooms := Py.float_of_Z 3; msg_sqm := 75;
                         msg_price := "9.500 kr."; msg_url := url_A |};
    DriverGet (page_url base 1); DriverGet (page_url base 2);
    SaveListings {[ url_A := listing_A ]}; Sleep 60;
    DriverGet base; DriverGet url_C;
    TelegramPost "42" {| msg_area := "X"; msg_rooms := Py.float_of_Z 2; msg_sqm := 60;
                         msg_price := "8.000 kr."; msg_url := url_C |};
    DriverGet (page_url base 1); DriverGet (page_url base 2);
    SaveListings (<[ url_C := listing_C ]> {[ url_A := listing_A ]}); Sleep 60;
    DriverGet base; SaveListings ∅; Sleep 60 ].
Proof. by vm_compute. Qed.



Example float_tenth : Py.float "0.1" = Ret (S754_finite false 7205759403792794 (-56)).
Proof. by vm_compute. Qed.

Example round_ties :
  result_bind (Py.float "0.5") Py.round = Ret 0%Z ∧
  result_bind (Py.float "1.5") Py.round = Ret 2%Z ∧
  result_bind (Py.float "2.5") Py.round = Ret 2%Z ∧
  result_bind (Py.float "2.51") Py.round = Ret 3%Z.
Proof. split_and!; by vm_compute. Qed.

Example strip_blanks : Str.strip "  9.500 kr. " = "9.500 kr.".
Proof. by vm_compute. Qed.

Example findall_tokens :
  Re.findall sqm_pattern "ab12,5,6.7x8." = ["12,5"; "6.7"; "8"].
Proof. by vm_compute. Qed.



Example parse_rooms_joined : _parse_rooms "1 2" = Ret (Py.float_of_Z 12).
Proof. by vm_compute. Qed.

Example parse_sqm_point : _parse_sqm "7.5" = Ret 8%Z.
Proof. by vm_compute. Qed.

Example parse_sqm_overflow :
  _parse_sqm (String.concat EmptyString (replicate 400 "9")) = Raise OverflowError.
Proof. by vm_compute. Qed.

(** C5.  The five test vectors of the numeric parsers. *)
Theorem parser_test_vectors :
  _parse_price "9.500 kr." = Ret 9500%Z ∧
  _parse_rooms "3 rooms, 75 m²" = Ret (Py.float_of_Z 3) ∧
  _parse_sqm "3 rooms, 75 m²" = Ret 75%Z ∧
  _parse_price EmptyString = Ret 0%Z ∧
  _parse_rooms "no numbers" = Ret (S754_zero false).
Proof. split_and!; by vm_compute. Qed.

(** C6, as amended.  When the crawl of one area has stored a new identity,
    the crawl of another area that follows leaves that listing as the first
    one wrote it, whether or not its own feed shows the identity: the first
    write wins.  The store binds every identity once. *)
Theorem first_area_keeps_listing cfg w area_1 base_1 area_2 base_2 st u l :
  area_1 ≠ area_2 →
  listings st !! u = None →
  let first := _scrape_area cfg w area_1 base_1 st in
  let second := _scrape_area cfg w area_2 base_2 first.2 in
  listings first.2 !! u = Some l →
  area l = Some area_1 ∧
  listings second.2 !! u = Some l ∧
  NoDup (map_to_list (listings second.2)).*1.
Proof.
  intros Hne Hnew first second Hl. subst second first.
  destruct (scrape_area_new cfg w area_1 base_1 st u l Hnew Hl) as [Ha _].
  split_and!; [done | | apply NoDup_fst_map_to_list].
  rewrite (scrape_area_kept cfg w area_2 base_2 _ u l Hl).
  destruct (_scrape_area cfg w area_2 base_2 _).1 as [[]|e]; [| done].
  assert (stale area_2 (found_urls (_scrape_area cfg w area_2 base_2
              (_scrape_area cfg w area_1 base_1 st).2).2) u l = false) as ->; [| done].
  apply not_true_iff_false. rewrite stale_true. intros [? _]. congruence.
Qed.

Lemma first_area_keeps_listing_witness :
  let first := _scrape_area cfg_2 shared "X" base start in
  let second := _scrape_area cfg_2 shared "Z" Scenario.base_2 first.2 in
  listings first.2 !! url_U = Some listing_U_of_X ∧
  url_U ∈ found_urls second.2 ∧
  area listing_U_of_X = Some "X" ∧
  listings second.2 !! url_U = Some listing_U_of_X ∧
  NoDup (map_to_list (listings second.2)).*1.
Proof.
  split; [by vm_compute |]. split; [vm_compute; apply list_elem_of_here |].
  apply (first_area_keeps_listing cfg_2 shared "X" base "Z" Scenario.base_2 start
           url_U listing_U_of_X); by vm_compute.
Defined.

(** C6, as stated, fails: both areas of the cycle below show the address
    U; the area crawled last, Z, finds it, and the store still holds what
    the area crawled first wrote. *)
Lemma later_area_does_not_overwrite :
  let st := (crawl_areas cfg_2 out_2 0 start).2 in
  url_U ∈ found_urls st ∧
  listings st !! url_U = Some listing_U_of_X ∧
  listings st !! url_U ≠ Some listing_U_of_Z.
Proof. split_and!; [vm_compute; apply list_elem_of_here | by vm_compute..]. Qed.

(** C7, as amended.  For a card that is new to the store and passes the
    admission test, a detail page that the driver returns without the
    timestamp element does not stop the crawl: the listing is stored with
    the empty string as its timestamp and [_send_telegram_notification] is
    called for it, so the round of the card loop returns normally unless
    the post itself raises. *)
Theorem detail_without_timestamp cfg w area_name card st c h soup
    rooms_val sqm_val price_val :
  href card = Some (String c h) →
  let apt_url := site +:+ String c h in
  let title_txt := text_or_empty (title_el card) in
  let price_txt := text_or_empty (price_el card) in
  listings st !! apt_url = None →
  _parse_rooms title_txt = Ret rooms_val →
  _parse_sqm title_txt = Ret sqm_val →
  _parse_price price_txt = Ret price_val →
  _meets_criteria cfg rooms_val sqm_val price_val = true →
  fetch w apt_url = Ret soup →
  time_el soup = None →
  let l := {| area := Some area_name; title := title_txt;
              location := text_or_empty (location_el card);
              description := title_txt; price := price_txt;
              rooms := rooms_val; sqm := sqm_val; timestamp := EmptyString |} in
  let m := {| msg_area := area_name; msg_rooms := rooms_val; msg_sqm := sqm_val;
              msg_price := price_txt; msg_url := apt_url |} in
  card_body cfg w area_name card st =
    _send_telegram_notification cfg w m
      {| listings := <[apt_url := l]> (listings st);
         found_urls := found_urls st ++ [apt_url];
         trace := trace st ++ [DriverGet apt_url] |} ∧
  ((∀ e, post w m ≠ Raise e) → (card_body cfg w area_name card st).1 = Ret tt).
Proof.
  intros Hhref apt_url title_txt price_txt Hnew Hrooms Hsqm Hprice Hmeets Hfetch Htime l m.
  assert (card_body cfg w area_name card st =
          _send_telegram_notification cfg w m
            {| listings := <[apt_url := l]> (listings st);
               found_urls := found_urls st ++ [apt_url];
               trace := trace st ++ [DriverGet apt_url] |}) as Heq.
  { rewrite card_body_eq. unfold card_url. rewrite Hhref. cbn zeta.
    fold apt_url. rewrite decide_False by (rewrite Hnew; by intros [? ?]).
    unfold verdict_of. fold title_txt price_txt.
    rewrite Hrooms, Hsqm, Hprice, Hmeets. cbn [negb]. rewrite Hfetch, Htime.
    reflexivity. }
  split; [exact Heq |].
  intros Hpost. rewrite Heq, notify_eq. cbn [fst].
  unfold notify_result. destruct credentials_missing; [done |].
  destruct (post w m) as [status|e]; [done | by destruct (Hpost e)].
Qed.

Lemma detail_without_timestamp_witness :
  let l := {| area := Some "X"; title := "3 vær. lejlighed på 75 m²"; location := "Aarhus C";
              description := "3 vær. lejlighed på 75 m²"; price := "9.500 kr.";
              rooms := Py.float_of_Z 3; sqm := 75; timestamp := EmptyString |} in
  let m := {| msg_area := "X"; msg_rooms := Py.float_of_Z 3; msg_sqm := 75;
              msg_price := "9.500 kr."; msg_url := url_A |} in
  card_body cfg no_timestamp "X" card_A start =
    _send_telegram_notification cfg no_timestamp m
      {| listings := <[url_A := l]> ∅; found_urls := [url_A];
         trace := [DriverGet url_A] |} ∧
  ((∀ e, post no_timestamp m ≠ Raise e) →
   (card_body cfg no_timestamp "X" card_A start).1 = Ret tt).
Proof.
  apply (detail_without_timestamp cfg no_timestamp "X" card_A start "/" "a"
           (results []) (Py.float_of_Z 3) 75%Z 9500%Z); by vm_compute.
Defined.

(** C7, as stated, fails: card A passes the admission test, the driver
    raises on its detail page, and the exception ends the crawl of the
    area; A is neither stored nor notified. *)
Lemma detail_fetch_raise_ends_crawl :
  let crawl := _scrape_area cfg (broken_detail [card_A; card_C]) "X" base start in
  _meets_criteria cfg (Py.float_of_Z 3) 75 9500 = true ∧
  crawl.1 = Raise WebDriverException ∧
  listings crawl.2 !! url_A = None ∧
  trace crawl.2 = [DriverGet base; DriverGet url_A].
Proof. split_and!; by vm_compute. Qed.

(** C8.  The pruning step of area A keeps, unchanged, every listing filed
    under another area B; it deletes a stored listing exactly when the
    listing is filed under A and its identity is not in the found set;
    and it adds or alters nothing. *)
Theorem prune_scope area_a found ls :
  (∀ area_b k l, area_a ≠ area_b → ls !! k = Some l → area l = Some area_b →
                 prune area_a found ls !! k = Some l) ∧
  (∀ k l, ls !! k = Some l →
          (prune area_a found ls !! k = None ↔ area l = Some area_a ∧ k ∉ found)) ∧
  (∀ k l, prune area_a found ls !! k = Some l → ls !! k = Some l).
Proof.
  split_and!.
  - intros area_b k l Hne Hk Hb. rewrite lookup_prune, Hk.
    assert (stale area_a found k l = false) as ->; [| done].
    apply not_true_iff_false. rewrite stale_true. intros [? _]. congruence.
  - intros k l Hk. rewrite lookup_prune, Hk.
    destruct (stale area_a found k l) eqn:E.
    + apply stale_true in E. tauto.
    + split; [done |]. intros H. apply stale_true in H. congruence.
  - intros k l. rewrite lookup_prune.
    destruct (ls !! k) as [l'|]; [| done]. by destruct (stale _ _ _ _).
Qed.

Lemma prune_scope_witness :
  prune "X" [] (<[url_A := listing_A]> {[ url_Y := listing_Y ]}) !! url_Y = Some listing_Y ∧
  prune "X" [] (<[url_A := listing_A]> {[ url_Y := listing_Y ]}) !! url_A = None.
Proof.
  split.
  - apply (proj1 (prune_scope "X" [] (<[url_A := listing_A]> {[ url_Y := listing_Y ]}))
             "Y" url_Y listing_Y); by vm_compute.
  - apply (proj1 (proj2 (prune_scope "X" [] (<[url_A := listing_A]> {[ url_Y := listing_Y ]})))
             url_A listing_A); [by vm_compute |].
    split; [by vm_compute | apply not_elem_of_nil].
Defined.

(** C10.  A card whose [href] is missing or empty changes nothing: no
    identity is found, nothing is stored, nothing is notified.  Hence,
    when a crawl returns normally and no card of its pages carries a
    non-empty [href] that gives the identity of a stored listing of the
    area, the pruning step deletes that listing. *)
Theorem card_without_href cfg w area_name :
  (∀ card st, href card = None ∨ href card = Some EmptyString →
              card_body cfg w area_name card st = (Ret tt, st)) ∧
  (∀ base_url st k l,
     (_scrape_area cfg w area_name base_url st).1 = Ret tt →
     listings st !! k = Some l → area l = Some area_name →
     (∀ i soup card h, i < NUM_PAGES → fetch w (page_url base_url i) = Ret soup →
                       card ∈ cards soup → href card = Some h →
                       h = EmptyString ∨ site +:+ h ≠ k) →
     listings (_scrape_area cfg w area_name base_url st).2 !! k = None).
Proof.
  split.
  - intros card st [H | H]; rewrite card_body_eq; unfold card_url; by rewrite H.
  - intros base_url st k l Hret Hk Ha Hcards.
    rewrite (scrape_area_kept cfg w area_name base_url st k l Hk), Hret.
    assert (stale area_name (found_urls (_scrape_area cfg w area_name base_url st).2) k l
            = true) as ->; [| done].
    apply stale_true. split; [done |]. intros Hin.
    apply scrape_area_found in Hin as (i & soup & card & Hi & Hf & Hc & Hu).
    unfold card_url in Hu. destruct (href card) as [[|c h]|] eqn:Hh; try done.
    injection Hu as Hu.
    destruct (Hcards i soup card (String c h) Hi Hf Hc Hh) as [? | ?]; done.
Qed.

Lemma card_without_href_witness :
  card_body cfg (feed [card_no_href; card_empty_href]) "X" card_empty_href (after_cycles 1) =
    (Ret tt, after_cycles 1) ∧
  listings (after_cycles 1) !! url_A = Some listing_A ∧
  listings (_scrape_area cfg (feed [card_no_href; card_empty_href]) "X" base
              (after_cycles 1)).2 !! url_A = None.
Proof.
  split; [| split; [by vm_compute |]].
  - apply (proj1 (card_without_href cfg (feed [card_no_href; card_empty_href]) "X")).
    by right.
  - apply (proj2 (card_without_href cfg (feed [card_no_href; card_empty_href]) "X")
             base (after_cycles 1) url_A listing_A); [by vm_compute.. |].
    intros i soup card h Hi Hf Hc Hh. left.
    assert (i = 0 ∨ i = 1 ∨ i = 2) as [-> | [-> | ->]] by (unfold NUM_PAGES in Hi; lia);
      vm_compute in Hf; injection Hf as <-.
    + apply elem_of_cons in Hc as [-> | Hc]; [by vm_compute in Hh |].
      apply elem_of_cons in Hc as [-> | Hc]; [| by apply elem_of_nil in Hc].
      vm_compute in Hh. by injection Hh as <-.
    + by apply elem_of_nil in Hc.
    + by apply elem_of_nil in Hc.
Defined.

(** C9: the code leaves [run] through the early return without releasing
    the driver.  With no area configured, [main] starts the driver,
    returns normally whatever the fuel, and the trace holds no
    [driver.quit()]. *)
Theorem run_without_areas_keeps_driver cfg out stored fuel :
  areas cfg = [] →
  ∃ st, main cfg out stored fuel = Some (Ret tt, st) ∧
        trace st = [DriverStart] ∧ quits (trace st) = 0.
Proof.
  intros Hareas. exists (init stored).
  unfold main, run. by rewrite Hareas.
Qed.

Lemma run_without_areas_keeps_driver_witness :
  ∃ st, main cfg_0 out ∅ 0 = Some (Ret tt, st) ∧
        trace st = [DriverStart] ∧ quits (trace st) = 0.
Proof. apply (run_without_areas_keeps_driver cfg_0 out ∅ 0). reflexivity. Defined.

(** With an area configured the same program releases the driver once. *)
Example run_with_area_releases_driver :
  ∃ st, main cfg out ∅ 5 = Some (Ret tt, st) ∧ quits (trace st) = 1.
Proof. eexists. split; by vm_compute. Qed.

End Claims.

(** * Further properties *)

(** ** The ranges of the parsers *)

Section FloatFacts.

Local Open Scope Z_scope.









(** [<=] on floats is transitive, also on pairs of mantissa and exponent
    that no rounding produced. *)
Lemma SFleb_trans a b c : SFleb a b = true → SFleb b c = true → SFleb a c = true.
Proof.
  unfold SFleb, SFcompare.
  destruct a as [sa|sa| |sa ma ea], b as [sb|sb| |sb mb eb], c as [sc|sc| |sc mc ec];
    try done;
    repeat match goal with s : bool |- _ => destruct s end; try done;
    change (PosDef.Pos.compare_cont Eq) with Pos.compare;
    destruct (Z.compare_spec ea eb), (Z.compare_spec eb ec), (Z.compare_spec ea ec);
    try done; try lia; subst;
    destruct (Pos.compare_spec ma mb), (Pos.compare_spec mb mc), (Pos.compare_spec ma mc);
    cbn; try done; try lia.
Qed.

End FloatFacts.

Section ParserRanges.







(** X3.  The admission test is monotone: a candidate that passes still
    passes with at least as many rooms, at least as large a size and at most
    as high a price.  A NaN room count never passes. *)
Theorem meets_criteria_monotone cfg rooms_1 sqm_1 price_1 rooms_2 sqm_2 price_2 :
  _meets_criteria cfg rooms_1 sqm_1 price_1 = true →
  Py.float_ge rooms_2 rooms_1 = true →
  (sqm_1 ≤ sqm_2)%Z →
  (price_2 ≤ price_1)%Z →
  _meets_criteria cfg rooms_2 sqm_2 price_2 = true ∧
  _meets_criteria cfg S754_nan sqm_1 price_1 = false.
Proof.
  unfold _meets_criteria, Py.float_ge.
  intros [[Hr Hs]%andb_true_iff Hp]%andb_true_iff Hge Hsqm Hprice.
  apply Z.leb_le in Hs, Hp. split.
  - rewrite (SFleb_trans _ _ _ Hr Hge). cbn.
    apply andb_true_iff. split; apply Z.leb_le; lia.
  - by destruct (min_rooms cfg).
Qed.

Lemma meets_criteria_monotone_witness :
  _meets_criteria Scenario.cfg (Py.float_of_Z 3) 75 9500 = true ∧
  _meets_criteria Scenario.cfg (Py.float_of_Z 4) 80 9000 = true ∧
  _meets_criteria Scenario.cfg S754_nan 75 9500 = false.
Proof.
  split; [by vm_compute |].
  apply (meets_criteria_monotone Scenario.cfg (Py.float_of_Z 3) 75 9500);
    by vm_compute.
Defined.

End ParserRanges.

(** ** What a crawl does to the outside *)

Section CrawlEffects.

Variable cfg : Config.
Variable w : World.

Lemma verdict_accept area_name card u l m :
  verdict_of cfg w area_name card u = Accept l m →
  admitted cfg w area_name u l ∧ describes m u l ∧ msg_area m = area_name.
Proof.
  unfold verdict_of.
  destruct (_parse_rooms _) as [rooms_val|] eqn:Hr; [| done].
  destruct (_parse_sqm _) as [sqm_val|] eqn:Hs; [| done].
  destruct (_parse_price _) as [price_val|] eqn:Hp; [| done].
  destruct (negb _) eqn:Hm; [done |]. apply negb_false_iff in Hm.
  destruct (fetch w u) as [soup|] eqn:Hf; [| done].
  intros [= <- <-]. unfold admitted, describes. cbn. split_and!; eauto.
Qed.

Lemma elem_of_posts u evs :
  u ∈ posts evs ↔ ∃ c m, TelegramPost c m ∈ evs ∧ msg_url m = u.
Proof.
  unfold posts. rewrite list_elem_of_omap. split.
  - intros ([] & Hin & He); try done. injection He as <-. eauto.
  - intros (c & m & Hin & <-). by exists (TelegramPost c m).
Qed.

Lemma posts_app t1 t2 : posts (t1 ++ t2) = posts t1 ++ posts t2.
Proof. apply omap_app. Qed.

Lemma posts_elem_of_app u t1 t2 : u ∈ posts (t1 ++ t2) → u ∈ posts t1 ∨ u ∈ posts t2.
Proof. rewrite posts_app. apply elem_of_app. Qed.

Lemma crawl_event_mono (P Q : string → Prop) st0 st st' st'' e :
  (∀ u, P u → Q u) →
  listings st0 ⊆ listings st → listings st' ⊆ listings st'' →
  found_urls st' ⊆ found_urls st'' →
  crawl_event cfg P st st' e → crawl_event cfg Q st0 st'' e.
Proof.
  intros HPQ H0 H1 Hf. destruct e as [|u|c m| | | | |]; cbn; try done.
  - intros [? | [Hn Hin]]; [left; by apply HPQ | right].
    split; [by eapply lookup_weaken_None | by apply Hf].
  - intros (-> & Hc & Hn & Hin & l & Hl & Hd). split_and!; try done.
    + by eapply lookup_weaken_None.
    + by apply Hf.
    + exists l. split; [by eapply lookup_weaken | done].
Qed.

Lemma tracked_nil P st : tracked cfg P st st [].
Proof. split_and!; [by rewrite app_nil_r | constructor | constructor]. Qed.

Lemma tracked_trans P st st1 st2 evs1 evs2 :
  tracked cfg P st st1 evs1 → tracked cfg P st1 st2 evs2 →
  listings st ⊆ listings st1 → listings st1 ⊆ listings st2 →
  found_urls st1 ⊆ found_urls st2 →
  tracked cfg P st st2 (evs1 ++ evs2).
Proof.
  intros (Ht1 & He1 & Hn1) (Ht2 & He2 & Hn2) Hs1 Hs2 Hf. split_and!.
  - by rewrite Ht2, Ht1, app_assoc.
  - apply Forall_app. split.
    + eapply Forall_impl; [exact He1 |]. intros e. by apply crawl_event_mono.
    + eapply Forall_impl; [exact He2 |]. intros e. by apply crawl_event_mono.
  - rewrite posts_app. apply NoDup_app. split_and!; [done | | done].
    intros u (c1 & m1 & Hin1 & <-)%elem_of_posts (c2 & m2 & Hin2 & Hu)%elem_of_posts.
    eapply Forall_forall in Hin1; [| exact He1].
    eapply Forall_forall in Hin2; [| exact He2].
    cbn in Hin1, Hin2.
    destruct Hin1 as (_ & _ & _ & _ & l & Hl & _).
    destruct Hin2 as (_ & _ & Hnone & _). rewrite Hu in Hnone. congruence.
Qed.

Lemma card_body_tracked area_name card st r st' :
  card_body cfg w area_name card st = (r, st') →
  ∃ evs, tracked cfg (λ _, False) st st' evs.
Proof.
  rewrite card_body_eq.
  destruct (card_url card) as [u|]; [| intros [= <- <-]; exists []; apply tracked_nil].
  cbn zeta. destruct (decide _) as [Hk|Hk].
  { intros [= <- <-]. exists []. split_and!; [by rewrite app_nil_r | constructor..]. }
  assert (listings st !! u = None) as Hnone.
  { destruct (listings st !! u) eqn:E; [| done]. destruct Hk. by eexists. }
  destruct (verdict_of _ _ _ _ _) as [|e|e|l m] eqn:Hv.
  1-2: intros [= <- <-]; exists []; split_and!; [by rewrite app_nil_r | constructor..].
  - intros [= <- <-]. exists [DriverGet u]. split_and!; [done | | constructor].
    constructor; [| constructor]. right. split; [done |]. cbn. apply elem_of_app. right.
    apply list_elem_of_here.
  - rewrite notify_eq. intros [= <- <-].
    apply verdict_accept in Hv as (_ & Hd & _).
    exists (DriverGet u :: notify_events cfg w m).
    assert (u ∈ found_urls st ++ [u]) as Hin by (apply elem_of_app; right; apply list_elem_of_here).
    unfold tracked, log, store, push_found. cbn [listings found_urls trace].
    split_and!.
    + by rewrite <- app_assoc.
    + constructor; [right; done |].
      unfold notify_events. destruct credentials_missing eqn:Hc.
      { constructor; [done | constructor]. }
      pose proof Hd as (Hurl & _).
      constructor.
      { cbn. rewrite Hurl. split_and!; try done. exists l.
        split; [apply lookup_insert_eq | done]. }
      destruct (post w m) as [status|e]; [| constructor].
      destruct (decide _); constructor; [done | constructor].
    + unfold notify_events. cbn. destruct credentials_missing; cbn.
      { constructor. }
      destruct (post w m) as [status|e]; [destruct (decide _) |]; cbn;
        (apply NoDup_singleton).
Qed.

Lemma grows_found_subseteq area_name new st st' :
  grows area_name new st st' → found_urls st ⊆ found_urls st'.
Proof. intros (_ & -> & _) u Hu. apply elem_of_app. by left. Qed.

Lemma for_each_tracked area_name cs st r st' :
  for_each (card_body cfg w area_name) cs st = (r, st') →
  ∃ evs, tracked cfg (λ _, False) st st' evs.
Proof.
  revert st. induction cs as [|c cs IH]; intros st.
  { intros [= <- <-]. exists []. apply tracked_nil. }
  rewrite for_each_cons.
  destruct (card_body cfg w area_name c st) as [[[]|e] st1] eqn:Hc.
  - intros Hrest.
    destruct (card_body_tracked _ _ _ _ _ Hc) as (evs1 & Ht1).
    destruct (IH _ Hrest) as (evs2 & Ht2).
    pose proof (card_body_grows _ _ _ _ _ _ _ Hc) as (Hs1 & _).
    destruct (for_each_grows _ _ _ _ _ _ _ Hrest) as (n2 & Hg2 & _).
    exists (evs1 ++ evs2). eapply tracked_trans; try done.
    + by destruct Hg2.
    + by eapply grows_found_subseteq.
  - intros [= <- <-]. by eapply card_body_tracked.
Qed.

Lemma tracked_get (P : string → Prop) st u :
  P u → tracked cfg P st (log [DriverGet u] st) [DriverGet u].
Proof.
  intros HP. split_and!; [done | | constructor].
  constructor; [by left | constructor].
Qed.

Lemma tracked_weaken (P Q : string → Prop) st st' evs :
  (∀ u, P u → Q u) → tracked cfg P st st' evs → tracked cfg Q st st' evs.
Proof.
  intros HPQ (Ht & He & Hn). split_and!; [done | | done].
  eapply Forall_impl; [exact He |]. intros e. by apply crawl_event_mono.
Qed.

Lemma page_loop_tracked area_name base_url idxs st r st' :
  page_loop cfg w area_name base_url idxs st = (r, st') →
  ∃ evs, tracked cfg (λ u, ∃ i, i ∈ idxs ∧ u = page_url base_url i) st st' evs.
Proof.
  revert st. induction idxs as [|i idxs IH]; intros st.
  { intros [= <- <-]. exists []. apply tracked_nil. }
  rewrite page_loop_cons. cbn zeta.
  assert (tracked cfg (λ u, ∃ j, j ∈ i :: idxs ∧ u = page_url base_url j) st
            (log [DriverGet (page_url base_url i)] st) [DriverGet (page_url base_url i)])
    as Hget.
  { apply tracked_get. exists i. split; [apply list_elem_of_here | done]. }
  destruct (fetch w (page_url base_url i)) as [soup|e] eqn:Hf.
  2: { intros [= <- <-]. eauto. }
  destruct (Nat.eqb i 0 && is_nil (cards soup)).
  { intros [= <- <-]. eauto. }
  destruct (for_each _ _ _) as [[[]|e] st1] eqn:Hc.
  - intros Hrest.
    destruct (for_each_tracked _ _ _ _ _ Hc) as (evs1 & Ht1).
    destruct (IH _ Hrest) as (evs2 & Ht2).
    destruct (for_each_grows _ _ _ _ _ _ _ Hc) as (n1 & Hg1 & _).
    destruct (page_loop_grows _ _ _ _ _ _ _ _ Hrest) as (n2 & Hg2 & _).
    exists ([DriverGet (page_url base_url i)] ++ evs1 ++ evs2).
    eapply tracked_trans; [exact Hget | | done | |].
    + eapply tracked_trans.
      * eapply tracked_weaken; [| exact Ht1]. done.
      * eapply tracked_weaken; [| exact Ht2].
        intros u (j & Hj & ->). exists j. split; [by apply elem_of_cons; right | done].
      * by destruct Hg1.
      * by destruct Hg2.
      * by eapply grows_found_subseteq.
    + etrans; [by destruct Hg1 | by destruct Hg2].
    + etrans; [by eapply grows_found_subseteq | by eapply grows_found_subseteq].
  - intros [= <- <-].
    destruct (for_each_tracked _ _ _ _ _ Hc) as (evs1 & Ht1).
    destruct (for_each_grows _ _ _ _ _ _ _ Hc) as (n1 & Hg1 & _).
    exists ([DriverGet (page_url base_url i)] ++ evs1).
    eapply tracked_trans; [exact Hget | | done | |].
    + eapply tracked_weaken; [| exact Ht1]. done.
    + by destruct Hg1.
    + by eapply grows_found_subseteq.
Qed.

Lemma scrape_area_tracked area_name base_url st :
  ∃ evs, tracked cfg (λ u, ∃ i, i < NUM_PAGES ∧ u = page_url base_url i) st
           (_scrape_area cfg w area_name base_url st).2 evs.
Proof.
  rewrite scrape_area_eq.
  destruct (page_loop _ _ _ _ _ _) as [r st1] eqn:Hloop.
  destruct (page_loop_tracked _ _ _ _ _ _ Hloop) as (evs & Ht & He & Hn).
  exists evs.
  assert (∀ k l, k ∈ found_urls st1 → listings st1 !! k = Some l →
            listings (match r with
                      | Ret _ => (Ret tt, {| listings := prune area_name (found_urls st1) (listings st1);
                                             found_urls := found_urls st1; trace := trace st1 |})
                      | Raise e => (Raise e, st1)
                      end).2 !! k = Some l) as Hkeep.
  { intros k l Hin Hl. destruct r as [[]|e]; [| done]. cbn.
    rewrite lookup_prune, Hl. unfold stale.
    by rewrite (bool_decide_eq_true_2 _ Hin), andb_false_r. }
  split_and!; [by destruct r as [[]|e] | | done].
  eapply Forall_impl; [exact He |]. intros [|u|c m| | | | |]; cbn; try done.
  - intros [(i & Hi & ->) | [Hnone Hin]].
    + left. exists i. split; [| done].
      change [0; 1; 2] with (seq 0 NUM_PAGES) in Hi. apply elem_of_seq in Hi. lia.
    + right. split; [done |]. by destruct r as [[]|e].
  - intros (-> & Hc & Hnone & Hin & l & Hl & Hd). split_and!; try done.
    + by destruct r as [[]|e].
    + exists l. split; [by apply Hkeep | done].
Qed.

Lemma credentials_present :
  credentials_missing cfg = false →
  bot_token cfg ≠ EmptyString ∧ chat_id cfg ≠ EmptyString.
Proof.
  unfold credentials_missing. intros [H1 H2]%orb_false_iff.
  apply negb_false_iff in H1, H2.
  split; intros E; rewrite E in *; done.
Qed.

(** *** Exceptions that leave a crawl *)




(** *** Listings a crawl stores *)

Lemma card_body_fresh area_name card st r st' k l :
  card_body cfg w area_name card st = (r, st') →
  listings st !! k = None → listings st' !! k = Some l →
  admitted cfg w area_name k l.
Proof.
  rewrite card_body_eq.
  destruct (card_url card) as [u|]; [| intros [= <- <-]; congruence].
  cbn zeta. destruct (decide _); [intros [= <- <-]; cbn; congruence |].
  destruct (verdict_of _ _ _ _ _) as [|e|e|l' m] eqn:Hv.
  1-3: intros [= <- <-]; cbn; congruence.
  rewrite notify_eq. intros [= <- <-]. cbn. intros Hnone.
  intros [[<- <-] | [_ Hl]]%lookup_insert_Some; [| congruence].
  by apply verdict_accept in Hv as (Ha & _).
Qed.

Lemma for_each_fresh area_name cs st r st' k l :
  for_each (card_body cfg w area_name) cs st = (r, st') →
  listings st !! k = None → listings st' !! k = Some l →
  admitted cfg w area_name k l.
Proof.
  revert st. induction cs as [|c cs IH]; intros st.
  { intros [= <- <-]. congruence. }
  rewrite for_each_cons.
  destruct (card_body cfg w area_name c st) as [[[]|e] st1] eqn:Hc.
  - intros Hrest Hnone Hl.
    destruct (listings st1 !! k) as [l1|] eqn:E1; [| by eapply IH].
    destruct (for_each_grows _ _ _ _ _ _ _ Hrest) as (n2 & (Hsub & _) & _).
    rewrite (lookup_weaken _ _ _ _ E1 Hsub) in Hl. injection Hl as <-.
    by eapply card_body_fresh.
  - intros [= <- <-]. by eapply card_body_fresh.
Qed.

Lemma page_loop_fresh area_name base_url idxs st r st' k l :
  page_loop cfg w area_name base_url idxs st = (r, st') →
  listings st !! k = None → listings st' !! k = Some l →
  admitted cfg w area_name k l.
Proof.
  revert st. induction idxs as [|i idxs IH]; intros st.
  { intros [= <- <-]. congruence. }
  rewrite page_loop_cons. cbn zeta.
  destruct (fetch w (page_url base_url i)) as [soup|e] eqn:Hf.
  2: { intros [= <- <-]. cbn. congruence. }
  destruct (Nat.eqb i 0 && is_nil (cards soup)).
  { intros [= <- <-]. cbn. congruence. }
  destruct (for_each _ _ _) as [[[]|e] st1] eqn:Hc.
  - intros Hrest Hnone Hl.
    destruct (listings st1 !! k) as [l1|] eqn:E1; [| by eapply IH].
    destruct (page_loop_grows _ _ _ _ _ _ _ _ Hrest) as (n2 & (Hsub & _) & _).
    rewrite (lookup_weaken _ _ _ _ E1 Hsub) in Hl. injection Hl as <-.
    eapply for_each_fresh; [exact Hc | exact Hnone | exact E1].
  - intros [= <- <-] Hnone Hl. eapply for_each_fresh; [exact Hc | exact Hnone | exact Hl].
Qed.

(** *** Identities a crawl finds *)

Lemma for_each_finds_all area_name cs st st' card u :
  for_each (card_body cfg w area_name) cs st = (Ret tt, st') →
  card ∈ cs → card_url card = Some u → u ∈ found_urls st'.
Proof.
  revert st. induction cs as [|c cs IH]; intros st; [by intros _ ?%elem_of_nil |].
  rewrite for_each_cons.
  destruct (card_body cfg w area_name c st) as [[[]|e] st1] eqn:Hc; [| done].
  intros Hrest [-> | Hin]%elem_of_cons Hu; [| by eapply IH].
  pose proof (card_body_grows _ _ _ _ _ _ _ Hc) as (_ & Hf & _).
  destruct (for_each_grows _ _ _ _ _ _ _ Hrest) as (n2 & Hg2 & _).
  eapply grows_found_subseteq; [exact Hg2 |].
  rewrite Hf, Hu. apply elem_of_app. right. apply list_elem_of_here.
Qed.

Lemma page_loop_finds_all area_name base_url idxs st st' i soup card u :
  page_loop cfg w area_name base_url idxs st = (Ret tt, st') →
  (0 ∈ idxs → ¬ empty_first_page w base_url) →
  i ∈ idxs → fetch w (page_url base_url i) = Ret soup →
  card ∈ cards soup → card_url card = Some u → u ∈ found_urls st'.
Proof.
  revert st. induction idxs as [|j idxs IH]; intros st; [by intros _ _ ?%elem_of_nil |].
  rewrite page_loop_cons. cbn zeta.
  destruct (fetch w (page_url base_url j)) as [soup'|e] eqn:Hf; [| done].
  destruct (Nat.eqb j 0 && is_nil (cards soup')) eqn:Hbreak.
  { intros _ Hfirst. apply andb_true_iff in Hbreak as [->%Nat.eqb_eq Hnil].
    destruct Hfirst; [apply list_elem_of_here |].
    exists soup'. split; [done | by destruct (cards soup')]. }
  destruct (for_each _ _ _) as [[[]|e] st1] eqn:Hc; [| done].
  intros Hrest Hfirst [-> | Hin]%elem_of_cons Hfi Hcard Hu.
  - rewrite Hf in Hfi. injection Hfi as ->.
    destruct (page_loop_grows _ _ _ _ _ _ _ _ Hrest) as (n2 & Hg2 & _).
    eapply grows_found_subseteq; [exact Hg2 |]. by eapply for_each_finds_all.
  - eapply IH; try done. intros H0. apply Hfirst. apply elem_of_cons. by right.
Qed.

Lemma scrape_area_fresh area_name base_url st k l :
  listings st !! k = None →
  listings (_scrape_area cfg w area_name base_url st).2 !! k = Some l →
  admitted cfg w area_name k l.
Proof.
  intros Hnone. rewrite scrape_area_eq.
  destruct (page_loop _ _ _ _ _ _) as [r st1] eqn:Hloop.
  intros Hl.
  assert (listings st1 !! k = Some l) as Hl1.
  { destruct r as [[]|e]; [| done]. cbn in Hl. rewrite lookup_prune in Hl.
    destruct (listings st1 !! k) as [l'|]; [| done].
    by destruct (stale _ _ _ _). }
  exact (page_loop_fresh _ _ _ _ _ _ k l Hloop Hnone Hl1).
Qed.

(** A listing in the store after a crawl was there before, the same, or
    the crawl stored it. *)
Lemma scrape_area_step area_name base_url st k l :
  listings (_scrape_area cfg w area_name base_url st).2 !! k = Some l →
  listings st !! k = Some l ∨ admitted cfg w area_name k l.
Proof.
  intros Hl. destruct (listings st !! k) as [l0|] eqn:E.
  - left. rewrite (scrape_area_kept cfg w area_name base_url st k l0 E) in Hl.
    destruct (_scrape_area _ _ _ _ _).1 as [[]|e]; [| done].
    by destruct (stale _ _ _ _).
  - right. by eapply scrape_area_fresh.
Qed.

Lemma scrape_area_frame area_name base_url st k l :
  listings st !! k = Some l → area l ≠ Some area_name →
  listings (_scrape_area cfg w area_name base_url st).2 !! k = Some l.
Proof.
  intros Hk Ha. rewrite (scrape_area_kept cfg w area_name base_url st k l Hk).
  destruct (_scrape_area _ _ _ _ _).1 as [[]|e]; [| done].
  unfold stale. by rewrite (bool_decide_eq_false_2 _ Ha).
Qed.

End CrawlEffects.

(** ** Properties of one crawl *)

Section CrawlProperties.

Import Scenario.




(** X5.  In the events of one crawl no identity is posted twice, even when
    the feed shows it on several cards or pages.  Every post goes to the
    configured chat, is made with both credentials set, concerns an identity
    that was not stored before the crawl, and shows the area, rooms, size
    and price text of the listing that the store holds under that identity
    when the crawl ends. *)
Theorem crawl_posts_once cfg w area_name base_url st :
  ∃ evs, trace (_scrape_area cfg w area_name base_url st).2 = trace st ++ evs ∧
    NoDup (posts evs) ∧
    ∀ c m, TelegramPost c m ∈ evs →
      c = chat_id cfg ∧ bot_token cfg ≠ EmptyString ∧ chat_id cfg ≠ EmptyString ∧
      msg_area m = area_name ∧
      listings st !! msg_url m = None ∧
      ∃ l, listings (_scrape_area cfg w area_name base_url st).2 !! msg_url m = Some l ∧
           area l = Some area_name ∧ msg_rooms m = rooms l ∧ msg_sqm m = sqm l ∧
           msg_price m = price l.
Proof.
  destruct (scrape_area_tracked cfg w area_name base_url st) as (evs & Ht & He & Hn).
  exists evs. split_and!; [done | done |].
  intros c m Hin. eapply Forall_forall in Hin; [| exact He]. cbn in Hin.
  destruct Hin as (-> & Hc & Hnone & _ & l & Hl & _ & Ha & Hr & Hs & Hp).
  destruct (credentials_present cfg Hc) as [Hb Hch].
  destruct (scrape_area_new cfg w area_name base_url st _ l Hnone Hl) as [Ha' _].
  split_and!; try done; [congruence |]. exists l. by split_and!.
Qed.

Lemma crawl_posts_once_witness :
  ∃ evs, trace (_scrape_area cfg (feed [card_A; card_A; card_B]) "X" base start).2
         = trace start ++ evs ∧
    NoDup (posts evs) ∧ posts evs = [url_A].
Proof.
  destruct (crawl_posts_once cfg (feed [card_A; card_A; card_B]) "X" base start)
    as (evs & Ht & Hn & _).
  exists evs. split_and!; [done | done |].
  vm_compute in Ht. subst evs. by vm_compute.
Defined.

(** X6.  A listing that a crawl adds to the store is filed under the crawled
    area; its description is its title; its rooms and size are what the
    parsers give on that title; its price text parses to a price with which
    rooms and size pass the admission test; and its timestamp is read from
    the page fetched at its identity. *)
Theorem crawl_stores_admitted cfg w area_name base_url st k l :
  listings st !! k = None →
  listings (_scrape_area cfg w area_name base_url st).2 !! k = Some l →
  area l = Some area_name ∧
  description l = title l ∧
  _parse_rooms (title l) = Ret (rooms l) ∧
  _parse_sqm (title l) = Ret (sqm l) ∧
  (∃ p, _parse_price (price l) = Ret p ∧ _meets_criteria cfg (rooms l) (sqm l) p = true) ∧
  (∃ soup, fetch w k = Ret soup ∧ timestamp l = text_or_empty (time_el soup)).
Proof. apply scrape_area_fresh. Qed.

Lemma crawl_stores_admitted_witness :
  listings start !! url_A = None ∧
  listings (_scrape_area cfg (feed [card_A; card_B]) "X" base start).2 !! url_A
    = Some listing_A ∧
  area listing_A = Some "X" ∧
  description listing_A = title listing_A ∧
  _parse_rooms (title listing_A) = Ret (rooms listing_A) ∧
  _parse_sqm (title listing_A) = Ret (sqm listing_A) ∧
  (∃ p, _parse_price (price listing_A) = Ret p ∧
        _meets_criteria cfg (rooms listing_A) (sqm listing_A) p = true) ∧
  (∃ soup, fetch (feed [card_A; card_B]) url_A = Ret soup ∧
           timestamp listing_A = text_or_empty (time_el soup)).
Proof.
  split; [by vm_compute |]. split; [by vm_compute |].
  apply (crawl_stores_admitted cfg (feed [card_A; card_B]) "X" base start url_A listing_A);
    by vm_compute.
Defined.

(** X7.  When a crawl returns normally and its first page showed a card,
    the identity of every card with a non-empty [href] on each of the pages
    it fetched is in the found list, whether or not the card passes the
    admission test; a listing stored under such an identity is still there,
    unchanged, after the crawl. *)
Theorem shown_listing_survives cfg w area_name base_url st i soup card c h :
  (_scrape_area cfg w area_name base_url st).1 = Ret tt →
  ¬ empty_first_page w base_url →
  i < NUM_PAGES →
  fetch w (page_url base_url i) = Ret soup →
  card ∈ cards soup →
  href card = Some (String c h) →
  site +:+ String c h ∈ found_urls (_scrape_area cfg w area_name base_url st).2 ∧
  ∀ l, listings st !! (site +:+ String c h) = Some l →
       listings (_scrape_area cfg w area_name base_url st).2 !! (site +:+ String c h) = Some l.
Proof.
  intros Hret Hfirst Hi Hf Hcard Hhref.
  assert (site +:+ String c h ∈ found_urls (_scrape_area cfg w area_name base_url st).2)
    as Hfound.
  { revert Hret. rewrite scrape_area_eq.
    destruct (page_loop _ _ _ _ _ _) as [[[]|e] st1] eqn:Hloop; [| done].
    intros _. cbn.
    eapply (page_loop_finds_all cfg w _ _ _ _ _ i soup card); try done.
    - apply elem_of_seq. lia.
    - unfold card_url. by rewrite Hhref. }
  split; [done |]. intros l Hl.
  rewrite (scrape_area_kept cfg w area_name base_url st _ l Hl), Hret.
  unfold stale. by rewrite (bool_decide_eq_true_2 _ Hfound), andb_false_r.
Qed.

Lemma shown_listing_survives_witness :
  listings (after_cycles 1) !! url_A = Some listing_A ∧
  url_A ∈ found_urls (_scrape_area cfg (feed [card_A; card_C]) "X" base (after_cycles 1)).2 ∧
  ∀ l, listings (after_cycles 1) !! url_A = Some l →
       listings (_scrape_area cfg (feed [card_A; card_C]) "X" base (after_cycles 1)).2
         !! url_A = Some l.
Proof.
  split; [by vm_compute |].
  apply (shown_listing_survives cfg (feed [card_A; card_C]) "X" base (after_cycles 1)
           0 (results [card_A; card_C]) card_A "/" "a").
  - by vm_compute.
  - intros (soup & Hf & Hc). vm_compute in Hf. injection Hf as <-. done.
  - unfold NUM_PAGES. lia.
  - by vm_compute.
  - apply list_elem_of_here.
  - by vm_compute.
Defined.

(** X8.  After a crawl that returned normally, every listing that the store
    files under the crawled area has its identity in the found list of that
    crawl, hence on a card with a non-empty [href] of a page the crawl
    fetched. *)
Theorem stored_of_area_were_found cfg w area_name base_url st k l :
  (_scrape_area cfg w area_name base_url st).1 = Ret tt →
  listings (_scrape_area cfg w area_name base_url st).2 !! k = Some l →
  area l = Some area_name →
  k ∈ found_urls (_scrape_area cfg w area_name base_url st).2 ∧
  ∃ i soup card c h,
    i < NUM_PAGES ∧ fetch w (page_url base_url i) = Ret soup ∧ card ∈ cards soup ∧
    href card = Some (String c h) ∧ k = site +:+ String c h.
Proof.
  intros Hret Hl Ha.
  assert (k ∈ found_urls (_scrape_area cfg w area_name base_url st).2) as Hfound.
  { revert Hret Hl. rewrite scrape_area_eq.
    destruct (page_loop _ _ _ _ _ _) as [[[]|e] st1] eqn:Hloop; [| done].
    intros _. cbn. rewrite lookup_prune.
    destruct (listings st1 !! k) as [l'|]; [| done].
    destruct (stale area_name (found_urls st1) k l') eqn:E; [done |].
    intros [= ->]. unfold stale in E.
    rewrite (bool_decide_eq_true_2 _ Ha) in E. cbn in E.
    apply negb_false_iff, bool_decide_eq_true in E. done. }
  split; [done |].
  destruct (scrape_area_found cfg w area_name base_url st k Hfound)
    as (i & soup & card & Hi & Hf & Hc & Hu).
  unfold card_url in Hu. destruct (href card) as [[|c h]|] eqn:Hh; try done.
  injection Hu as <-. by exists i, soup, card, c, h.
Qed.

Lemma stored_of_area_were_found_witness :
  (_scrape_area cfg (feed [card_A; card_C]) "X" base (after_cycles 1)).1 = Ret tt ∧
  listings (_scrape_area cfg (feed [card_A; card_C]) "X" base (after_cycles 1)).2 !! url_C
    = Some listing_C ∧
  url_C ∈ found_urls (_scrape_area cfg (feed [card_A; card_C]) "X" base (after_cycles 1)).2.
Proof.
  split; [by vm_compute |]. split; [by vm_compute |].
  apply (stored_of_area_were_found cfg (feed [card_A; card_C]) "X" base (after_cycles 1)
           url_C listing_C); by vm_compute.
Defined.



End CrawlProperties.

(** ** Properties of the whole run *)

Section RunProperties.

Import Scenario.

Variable cfg : Config.
Variable out : Outside.

Lemma for_each_preserves {A} (body : A → M unit) (I : State → Prop) l :
  (∀ x st, x ∈ l → I st → I (body x st).2) →
  ∀ st, I st → I (for_each body l st).2.
Proof.
  induction l as [|x l IH]; intros Hbody st Hst; [done |].
  rewrite for_each_cons.
  pose proof (Hbody x st (list_elem_of_here _ _) Hst) as H1.
  destruct (body x st) as [[[]|e] st1]; cbn [snd] in *; [| done].
  apply IH; [| done]. intros y st' Hy. apply Hbody. apply elem_of_cons. by right.
Qed.

(** An invariant of the store that every crawl of a configured area keeps
    is kept by a cycle, by any number of cycles and by [run]. *)
Lemma cycle_preserves (I : gmap string Listing → Prop) n :
  (∀ a st, a ∈ areas cfg → I (listings st) →
           I (listings (_scrape_area cfg (world_at out n) a.1 a.2 st).2)) →
  ∀ st, I (listings st) → I (listings (cycle cfg out n st).2).
Proof.
  intros Hcrawl st Hst. unfold cycle, crawl_areas, bind.
  pose proof (for_each_preserves
                (λ a, _scrape_area cfg (world_at out n) a.1 a.2)
                (λ st, I (listings st)) (areas cfg) Hcrawl st Hst) as H.
  destruct (for_each _ _ _) as [[[]|e] st1]; cbn [snd] in *; [| done].
  unfold _save_listings, sleep_cycle, bind, get_listings, emit, lift, ret. cbn.
  by destruct (interrupted_sleep out n).
Qed.

Lemma cycles_preserve (I : gmap string Listing → Prop) :
  (∀ n a st, a ∈ areas cfg → I (listings st) →
             I (listings (_scrape_area cfg (world_at out n) a.1 a.2 st).2)) →
  ∀ fuel n st e st', I (listings st) →
    cycles cfg out fuel n st = Some (e, st') → I (listings st').
Proof.
  intros Hcrawl. induction fuel as [|fuel IH]; intros n st e st' Hst; [done |].
  cbn [cycles].
  pose proof (cycle_preserves I n (Hcrawl n) st Hst) as Hc.
  destruct (cycle cfg out n st) as [[[]|e1] st1]; cbn [snd] in Hc.
  - by apply IH.
  - by intros [= <- <-].
Qed.

Lemma run_preserves (I : gmap string Listing → Prop) :
  (∀ n a st, a ∈ areas cfg → I (listings st) →
             I (listings (_scrape_area cfg (world_at out n) a.1 a.2 st).2)) →
  ∀ fuel st r st', I (listings st) →
    run cfg out fuel st = Some (r, st') → I (listings st').
Proof.
  intros Hcrawl fuel st r st' Hst. unfold run.
  destruct (is_nil (areas cfg)); [by intros [= <- <-] |].
  destruct (cycles cfg out fuel 0 st) as [[e st1]|] eqn:Hc; [| done].
  apply (cycles_preserve I Hcrawl) in Hc; [| done].
  destruct (decide _); intros [= <- <-]; exact Hc.
Qed.

Lemma scrape_area_posts w area_name base_url st :
  ∃ evs, trace (_scrape_area cfg w area_name base_url st).2 = trace st ++ evs ∧
    NoDup (posts evs) ∧
    ∀ u, u ∈ posts evs →
      listings st !! u = None ∧
      ∃ l, listings (_scrape_area cfg w area_name base_url st).2 !! u = Some l ∧
           area l = Some area_name.
Proof.
  destruct (scrape_area_tracked cfg w area_name base_url st) as (evs & Ht & He & Hn).
  exists evs. split_and!; [done | done |].
  intros u (c & m & Hin & <-)%elem_of_posts.
  eapply Forall_forall in Hin; [| exact He]. cbn in Hin.
  destruct Hin as (_ & _ & Hnone & _ & l & Hl & _).
  split; [done |]. exists l. split; [done |].
  by destruct (scrape_area_new cfg w area_name base_url st _ l Hnone Hl).
Qed.

(** Over a list of areas with distinct names no identity is posted
    twice; one that was stored at the start is posted only if it was filed
    under one of these areas. *)
Lemma crawl_list_posts w (l : list (string * string)) : ∀ st,
  NoDup l.*1 →
  ∃ evs, trace (for_each (λ a, _scrape_area cfg w a.1 a.2) l st).2 = trace st ++ evs ∧
    NoDup (posts evs) ∧
    ∀ u x, u ∈ posts evs → listings st !! u = Some x → ∃ b, b ∈ l ∧ area x = Some b.1.
Proof.
  induction l as [|a l IH]; intros st Hnd.
  { exists []. split_and!; [by rewrite app_nil_r | constructor | by intros u x ?%elem_of_nil]. }
  apply NoDup_cons in Hnd as [Ha Hnd]. rewrite for_each_cons.
  destruct (scrape_area_posts w a.1 a.2 st) as (evs1 & Ht1 & Hn1 & Hp1).
  pose proof (scrape_area_frame cfg w a.1 a.2 st) as Hframe.
  destruct (_scrape_area cfg w a.1 a.2 st) as [[[]|e] st1] eqn:Hc; cbn [snd] in *.
  2: { exists evs1. split_and!; [done | done |].
       intros u x Hu Hx. destruct (Hp1 u Hu) as (Hnone & _). congruence. }
  destruct (IH st1 Hnd) as (evs2 & Ht2 & Hn2 & Hp2).
  exists (evs1 ++ evs2). split_and!.
  - by rewrite Ht2, Ht1, app_assoc.
  - rewrite posts_app. apply NoDup_app. split_and!; [done | | done].
    intros u Hu1 Hu2. destruct (Hp1 u Hu1) as (_ & x & Hx & Hax).
    destruct (Hp2 u x Hu2 Hx) as (b & Hb & Hbx).
    apply Ha. apply list_elem_of_fmap. exists b. split; [congruence | done].
  - intros u x [Hu | Hu]%posts_elem_of_app Hx.
    + destruct (Hp1 u Hu) as (Hnone & _). congruence.
    + destruct (decide (area x = Some a.1)) as [Hax | Hax].
      * exists a. split; [apply list_elem_of_here | done].
      * destruct (Hp2 u x Hu (Hframe u x Hx Hax)) as (b & Hb & Hbx).
        exists b. split; [apply elem_of_cons; by right | done].
Qed.

(** X10.  With distinct area names, the events of one cycle post no
    identity twice, even when the feeds of several areas show it. *)
Theorem cycle_posts_once n st :
  NoDup (areas cfg).*1 →
  ∃ evs, trace (cycle cfg out n st).2 = trace st ++ evs ∧ NoDup (posts evs).
Proof.
  intros Hnd.
  destruct (crawl_list_posts (world_at out n) (areas cfg) st Hnd) as (evs & Ht & Hn & _).
  unfold cycle, crawl_areas, bind.
  destruct (for_each _ _ _) as [[[]|e] st1]; cbn [snd] in *; [| by exists evs].
  unfold _save_listings, sleep_cycle, bind, get_listings, emit, lift, ret. cbn.
  exists (evs ++ [SaveListings (listings st1); Sleep CYCLE_DELAY]).
  split.
  - destruct (interrupted_sleep out n); cbn; rewrite Ht, <- !app_assoc; done.
  - rewrite posts_app. cbn. by rewrite app_nil_r.
Qed.





(** X11.  When [run] ends with at least one area configured, its last two
    effects are [driver.quit()] and a dump of the store as it is at that
    moment, and the driver was not released before; a [KeyboardInterrupt]
    never leaves [run]. *)
Theorem run_ends_with_quit_and_save fuel st r st' :
  areas cfg ≠ [] →
  run cfg out fuel st = Some (r, st') →
  (∃ tr, trace st' = tr ++ [DriverQuit; SaveListings (listings st')] ∧
         quits tr = quits (trace st)) ∧
  r ≠ Raise KeyboardInterrupt.
Proof.
  intros Hareas. unfold run.
  destruct (areas cfg) as [|a l]; [done |]. cbn [is_nil].
  destruct (cycles cfg out fuel 0 st) as [[e st1]|] eqn:Hc; [| done].
  apply cycles_quits in Hc.
  assert (∃ tr, trace (finally_block st1).2 =
                tr ++ [DriverQuit; SaveListings (listings (finally_block st1).2)] ∧
                quits tr = quits (trace st)) as Hfin.
  { exists (trace st1). split; [| done].
    unfold finally_block, _save_listings, bind, emit, get_listings. cbn.
    by rewrite <- app_assoc. }
  destruct (decide (e = KeyboardInterrupt)); intros [= <- <-]; (split; [done |]).
  - done.
  - congruence.
Qed.

(** X12.  A stored listing that is filed under no configured area, or
    under none at all, is in the store, unchanged, whenever [run] ends:
    no crawl prunes or rewrites it. *)
Theorem orphan_listing_stays fuel st r st' k l :
  run cfg out fuel st = Some (r, st') →
  listings st !! k = Some l →
  (∀ a, a ∈ areas cfg → area l ≠ Some a.1) →
  listings st' !! k = Some l.
Proof.
  intros Hrun Hk Horphan.
  apply (run_preserves (λ ls, ls !! k = Some l)) with (fuel := fuel) (st := st) (r := r);
    [| done | done].
  intros n a st0 Ha Hst0. apply scrape_area_frame; [done | by apply Horphan].
Qed.

(** X13.  Whenever [run] ends, each listing of the store either was in the
    store, the same, when [run] began, or was stored by the crawl of a
    configured area in some cycle: it is filed under that area, its numbers
    are the parse of its own texts, and they passed the admission test. *)
Theorem store_holds_loaded_or_admitted fuel st r st' k l :
  run cfg out fuel st = Some (r, st') →
  listings st' !! k = Some l →
  listings st !! k = Some l ∨
  ∃ n a, a ∈ areas cfg ∧
    area l = Some a.1 ∧
    description l = title l ∧
    _parse_rooms (title l) = Ret (rooms l) ∧
    _parse_sqm (title l) = Ret (sqm l) ∧
    (∃ p, _parse_price (price l) = Ret p ∧ _meets_criteria cfg (rooms l) (sqm l) p = true) ∧
    (∃ soup, fetch (world_at out n) k = Ret soup ∧
             timestamp l = text_or_empty (time_el soup)).
Proof.
  intros Hrun.
  revert k l.
  apply (run_preserves
           (λ ls, ∀ k l, ls !! k = Some l →
              listings st !! k = Some l ∨
              ∃ n a, a ∈ areas cfg ∧ admitted cfg (world_at out n) a.1 k l))
    with (fuel := fuel) (st := st) (r := r); [| by left | done].
  intros n a st0 Ha Hst0 k l Hl.
  destruct (scrape_area_step cfg (world_at out n) a.1 a.2 st0 k l Hl) as [H | H].
  - by apply Hst0.
  - right. by exists n, a.
Qed.


End RunProperties.

Section RunWitnesses.

Import Scenario.

Lemma run_ends_with_quit_and_save_witness :
  ∃ st', run cfg out 5 start = Some (Ret tt, st') ∧
    (∃ tr, trace st' = tr ++ [DriverQuit; SaveListings (listings st')] ∧
           quits tr = quits (trace start)) ∧
    Ret tt ≠ (Raise KeyboardInterrupt : result unit).
Proof.
  destruct (run cfg out 5 start) as [[r st']|] eqn:E; vm_compute in E; [| done].
  injection E as <- <-. eexists. split; [reflexivity |].
  apply (run_ends_with_quit_and_save cfg out 5 start); by vm_compute.
Defined.

Lemma cycle_posts_once_witness :
  NoDup (areas cfg_2).*1 ∧
  ∃ evs, trace (cycle cfg_2 out_2 0 start).2 = trace start ++ evs ∧ NoDup (posts evs).
Proof.
  assert (NoDup (areas cfg_2).*1) as Hnd.
  { apply NoDup_cons. split; [| apply NoDup_singleton].
    intros H%list_elem_of_singleton. by vm_compute in H. }
  split; [exact Hnd |]. exact (cycle_posts_once cfg_2 out_2 0 start Hnd).
Defined.

Lemma store_holds_loaded_or_admitted_witness :
  ∃ st', run cfg_2 out_2 1 start = Some (Ret tt, st') ∧
    listings st' !! url_U = Some listing_U_of_X ∧
    (listings start !! url_U = Some listing_U_of_X ∨
     ∃ n a, a ∈ areas cfg_2 ∧
       area listing_U_of_X = Some a.1 ∧
       description listing_U_of_X = title listing_U_of_X ∧
       _parse_rooms (title listing_U_of_X) = Ret (rooms listing_U_of_X) ∧
       _parse_sqm (title listing_U_of_X) = Ret (sqm listing_U_of_X) ∧
       (∃ p, _parse_price (price listing_U_of_X) = Ret p ∧
             _meets_criteria cfg_2 (rooms listing_U_of_X) (sqm listing_U_of_X) p = true) ∧
       (∃ soup, fetch (world_at out_2 n) url_U = Ret soup ∧
                timestamp listing_U_of_X = text_or_empty (time_el soup))).
Proof.
  exists (finally_block (cycle cfg_2 out_2 0 start).2).2.
  split; [by vm_compute |]. split; [by vm_compute |].
  apply (store_holds_loaded_or_admitted cfg_2 out_2 1 start (Ret tt)
           (finally_block (cycle cfg_2 out_2 0 start).2).2 url_U listing_U_of_X);
    by vm_compute.
Defined.



Lemma orphan_listing_stays_witness :
  ∃ st', run cfg out 5 with_Y = Some (Ret tt, st') ∧ listings st' !! url_Y = Some listing_Y.
Proof.
  destruct (run cfg out 5 with_Y) as [[r st']|] eqn:E; vm_compute in E; [| done].
  injection E as <- <-. eexists. split; [reflexivity |].
  apply (orphan_listing_stays cfg out 5 with_Y (Ret tt) _ url_Y listing_Y).
  - by vm_compute.
  - by vm_compute.
  - intros a Ha. apply list_elem_of_singleton in Ha as ->. by vm_compute.
Defined.

End RunWitnesses.
